(** * slm_interface: the exercise-provider contract

    A shallow embedding of [slm_interface.py]: the two dataclasses
    [Exercise] and [Evaluation] and the abstract base class [SLMInterface].

    The module has no algorithm of its own; what it fixes is the behaviour
    that Python attaches to its declarations: the [__init__] and [__eq__]
    that [@dataclass] generates, attribute assignment on the instances,
    the binding of call arguments to the three method signatures, and the
    instantiation check of [ABC].  Those are modelled here over a store of
    mutable objects, and the properties of the contract are proved on that
    model. *)

From Stdlib Require Import ZArith String List Bool.
From Stdlib Require Import Floats.SpecFloat.
From stdpp Require Import base option list gmap strings.

Local Open Scope string_scope.

(** ** Values and the object store *)

(** Object identity (what [id()] and [is] observe). *)
Abbreviation loc := positive (only parsing).

(** Python values.  Immutable scalars are carried by value; a dict, a list
    or a class instance is a reference into the store.  [float] is IEEE
    binary64 and so has infinities and NaN. *)
Inductive value : Type :=
| VNone
| VBool (b : bool)
| VInt (n : Z)
| VFloat (f : spec_float)
| VStr (s : string)
| VRef (l : loc).

#[global] Instance spec_float_eq_dec : EqDecision spec_float.
Proof. solve_decision. Defined.

#[global] Instance value_eq_dec : EqDecision value.
Proof. solve_decision. Defined.

(** The [default] of a dataclass field or of a parameter: none, a value
    shared by every call, or a factory called once per construction
    ([field(default_factory=dict)]). *)
Inductive factory : Type := FDict | FList.

Inductive default : Type :=
| Required
| Default (v : value)
| DefaultFactory (f : factory).

(** Annotations, as the source writes them. *)
Inductive ann : Type :=
| TStr
| TBool
| TFloat
| TAny
| TOptional (a : ann)
| TList (a : ann)
| TDict (k v : ann)
| TClass (name : string).

Record field : Type := Field {
  f_name : string;
  f_type : ann;
  f_default : default
}.

(** A class decorated with [@dataclass].  The decorator is applied without
    arguments in the source, so [eq] is [True] and [frozen] is [False]. *)
Record dataclass : Type := Dataclass {
  dc_name : string;
  dc_fields : list field;
  dc_eq : bool;
  dc_frozen : bool
}.

#[global] Instance factory_eq_dec : EqDecision factory.
Proof. solve_decision. Defined.
#[global] Instance default_eq_dec : EqDecision default.
Proof. solve_decision. Defined.
#[global] Instance ann_eq_dec : EqDecision ann.
Proof. solve_decision. Defined.
#[global] Instance field_eq_dec : EqDecision field.
Proof. solve_decision. Defined.
#[global] Instance dataclass_eq_dec : EqDecision dataclass.
Proof. solve_decision. Defined.

(** Mutable objects. [OInst] is an instance of a dataclass with its
    [__dict__]; [OPlain] an instance of an ordinary class. *)
Inductive obj : Type :=
| ODict (d : gmap string value)
| OList (l : list value)
| OInst (cls : dataclass) (attrs : gmap string value)
| OPlain (cls : string) (attrs : gmap string value).

Abbreviation heap := (gmap positive obj) (only parsing).

Inductive exn : Type :=
| TypeError
| AttributeError
| FrozenInstanceError.

(** ** Computations: a store, and a result or a raised exception *)

Inductive res (A : Type) : Type :=
| Ok (a : A) (h : heap)
| Raise (e : exn) (h : heap).
Arguments Ok {A} a h.
Arguments Raise {A} e h.

Definition M (A : Type) : Type := heap → res A.

#[global] Instance M_ret : MRet M := λ A a h, Ok a h.
#[global] Instance M_bind : MBind M := λ A B k m h,
  match m h with
  | Ok a h' => k a h'
  | Raise e h' => Raise e h'
  end.

Definition raise {A} (e : exn) : M A := λ h, Raise e h.

(** A pure step that may raise. *)
Definition lift {A} (r : exn + A) : M A :=
  match r with
  | inl e => raise e
  | inr a => mret a
  end.

(** Allocation gives the new object an identity no live object has. *)
Definition alloc (o : obj) : M loc :=
  λ h, let l := fresh (dom h) in Ok l (<[l := o]> h).

Definition call_factory (f : factory) : M value :=
  match f with
  | FDict => l ← alloc (ODict ∅); mret (VRef l)
  | FList => l ← alloc (OList []); mret (VRef l)
  end.

(** ** Signatures and the binding of call arguments *)

Inductive param_kind : Type :=
| PositionalOrKeyword
| KeywordOnly.   (* declared after a bare [*] *)

Record param : Type := Param {
  p_name : string;
  p_kind : param_kind;
  p_default : default
}.

(** A signature without [*args]; [sig_var_keyword] is [**kwargs]. *)
Record signature : Type := Signature {
  sig_params : list param;
  sig_var_keyword : bool
}.

Definition has_param (ps : list param) (k : string) : bool :=
  existsb (λ p, String.eqb (p_name p) k) ps.

(** Positional arguments fill the positional-or-keyword parameters from the
    left.  One positional too many ("takes n positional arguments but m
    were given") is a [TypeError]; keyword-only parameters take none. *)
Fixpoint bind_positional (ps : list param) (args : list value)
    (acc : gmap string value) : exn + gmap string value :=
  match args with
  | [] => inr acc
  | a :: args' =>
      match ps with
      | [] => inl TypeError
      | p :: ps' =>
          match p_kind p with
          | PositionalOrKeyword =>
              bind_positional ps' args' (<[p_name p := a]> acc)
          | KeywordOnly => inl TypeError
          end
      end
  end.

(** Keyword arguments: a name of a parameter binds it ("got multiple
    values" when it is bound already); any other name goes to [**kwargs]
    when the signature has it and is "unexpected" otherwise; a repeated
    keyword is refused. *)
Fixpoint bind_keywords (sg : signature) (kw : list (string * value))
    (acc extra : gmap string value)
    : exn + (gmap string value * gmap string value) :=
  match kw with
  | [] => inr (acc, extra)
  | (k, v) :: kw' =>
      if has_param (sig_params sg) k then
        match acc !! k with
        | Some _ => inl TypeError
        | None => bind_keywords sg kw' (<[k := v]> acc) extra
        end
      else if sig_var_keyword sg then
        match extra !! k with
        | Some _ => inl TypeError
        | None => bind_keywords sg kw' acc (<[k := v]> extra)
        end
      else inl TypeError
  end.

(** Parameters still unbound take their default; a required one that is
    missing is a [TypeError].  A default factory is not run by the call: the
    parameter stays unbound and the body runs the factory (the generated
    [__init__] tests for the [_HAS_DEFAULT_FACTORY] sentinel). *)
Fixpoint apply_defaults (ps : list param) (acc : gmap string value)
    : exn + gmap string value :=
  match ps with
  | [] => inr acc
  | p :: ps' =>
      match acc !! p_name p with
      | Some _ => apply_defaults ps' acc
      | None =>
          match p_default p with
          | Required => inl TypeError
          | Default v => apply_defaults ps' (<[p_name p := v]> acc)
          | DefaultFactory _ => apply_defaults ps' acc
          end
      end
  end.

(** The whole binding: the named parameters, and the content of
    [**kwargs]. *)
Definition bind_args (sg : signature) (args : list value)
    (kw : list (string * value))
    : exn + (gmap string value * gmap string value) :=
  match bind_positional (sig_params sg) args ∅ with
  | inl e => inl e
  | inr acc =>
      match bind_keywords sg kw acc ∅ with
      | inl e => inl e
      | inr (acc', extra) =>
          match apply_defaults (sig_params sg) acc' with
          | inl e => inl e
          | inr bound => inr (bound, extra)
          end
      end
  end.

(** ** What [@dataclass] generates *)

(** The signature of the generated [__init__]: [self], then one
    positional-or-keyword parameter per field, in declaration order, with
    the field's default. *)
Definition init_signature (dc : dataclass) : signature :=
  {| sig_params :=
       Param "self" PositionalOrKeyword Required
       :: map (λ f, Param (f_name f) PositionalOrKeyword (f_default f))
              (dc_fields dc);
     sig_var_keyword := false |}.

(** [object.__setattr__] on the instance's [__dict__] (what the generated
    [__init__] amounts to, frozen or not). *)
Definition store_attr (l : loc) (name : string) (v : value) : M unit :=
  λ h, match h !! l with
       | Some (OInst c attrs) => Ok () (<[l := OInst c (<[name := v]> attrs)]> h)
       | Some (OPlain c attrs) => Ok () (<[l := OPlain c (<[name := v]> attrs)]> h)
       | _ => Raise AttributeError h
       end.

(** The body of the generated [__init__]: one assignment per field, in
    order; a field left unbound by the call has a default factory, which
    is called now (once per construction). *)
Fixpoint init_fields (l : loc) (fs : list field) (bound : gmap string value)
    : M unit :=
  match fs with
  | [] => mret ()
  | f :: fs' =>
      v ← match bound !! f_name f with
          | Some v => mret v
          | None =>
              match f_default f with
              | DefaultFactory fac => call_factory fac
              | _ => raise TypeError
              end
          end;
      store_attr l (f_name f) v;;
      init_fields l fs' bound
  end.

(** Calling the class: [__new__] allocates the instance, then [__init__]
    binds the arguments and assigns the fields. *)
Definition dataclass_new (dc : dataclass) (args : list value)
    (kw : list (string * value)) : M loc :=
  l ← alloc (OInst dc ∅);
  '(bound, _) ← lift (bind_args (init_signature dc) (VRef l :: args) kw);
  init_fields l (dc_fields dc) bound;;
  mret l.

(** [obj.name]: the instance attribute. *)
Definition getattr (l : loc) (name : string) : M value :=
  λ h, match h !! l with
       | Some (OInst _ attrs) | Some (OPlain _ attrs) =>
           match attrs !! name with
           | Some v => Ok v h
           | None => Raise AttributeError h
           end
       | _ => Raise AttributeError h
       end.


(** [d[k] = v] on a dict. *)
Definition dict_setitem (l : loc) (k : string) (v : value) : M unit :=
  λ h, match h !! l with
       | Some (ODict d) => Ok () (<[l := ODict (<[k := v]> d)]> h)
       | _ => Raise TypeError h
       end.

(** The content of a dict, for observation. *)
Definition dict_items (h : heap) (l : loc) : option (gmap string value) :=
  match h !! l with
  | Some (ODict d) => Some d
  | _ => None
  end.

(** ** Equality ([==]) *)

(** Python's [math.isfinite] on a float. *)
Definition isfinite (f : spec_float) : bool :=
  match f with
  | S754_zero _ | S754_finite _ _ _ => true
  | S754_infinity _ | S754_nan => false
  end.

(** [float == int] compares the exact values. *)
Definition float_eq_int (f : spec_float) (z : Z) : bool :=
  match f with
  | S754_zero _ => (z =? 0)%Z
  | S754_finite s m e =>
      let zm := if s then Z.neg m else Z.pos m in
      if (0 <=? e)%Z then (z =? zm * 2 ^ e)%Z
      else (z * 2 ^ (- e) =? zm)%Z
  | _ => false
  end.

(** [==] between immutable scalars.  [bool] is a subclass of [int];
    floats compare as IEEE (NaN differs from itself, the zeros agree). *)
Definition scalar_eq (a b : value) : bool :=
  match a, b with
  | VNone, VNone => true
  | VStr s, VStr t => String.eqb s t
  | VBool x, VBool y => Bool.eqb x y
  | VBool x, VInt n | VInt n, VBool x => (Z.b2z x =? n)%Z
  | VInt m, VInt n => (m =? n)%Z
  | VFloat f, VFloat g => SFeqb f g
  | VFloat f, VInt n | VInt n, VFloat f => float_eq_int f n
  | VFloat f, VBool x | VBool x, VFloat f => float_eq_int f (Z.b2z x)
  | _, _ => false
  end.

(** Conjunction of comparisons from the left, stopping at the first that
    is not [True]; [None] is a comparison that raised. *)
Fixpoint all_opt {A} (f : A → option bool) (l : list A) : option bool :=
  match l with
  | [] => Some true
  | x :: l' =>
      match f x with
      | Some true => all_opt f l'
      | r => r
      end
  end.

(** The generated [__eq__] on two instances of the same class: the fields
    compared in declaration order (all fields have [compare=True]). *)
Definition fields_eq (eqv : value → value → option bool)
    (fs : list field) (a b : gmap string value) : option bool :=
  all_opt (λ f, match a !! f_name f, b !! f_name f with
                | Some x, Some y => eqv x y
                | _, _ => None
                end) fs.

(** [a == b].  Two references to one object are equal; two distinct
    objects are compared by content when they are dicts, lists, or
    instances of one dataclass with [eq=True], and are unequal otherwise
    (both [__eq__] return [NotImplemented] and identity decides).  The
    recursion through the store is bounded by [fuel]; [None] stands for a
    comparison that raised.  Immutable scalars have no identity here, so a
    NaN never equals a NaN, also where CPython would first find the two to
    be one object. *)
Fixpoint py_eq (fuel : nat) (h : heap) (a b : value) : option bool :=
  match a, b with
  | VRef la, VRef lb =>
      if decide (la = lb) then Some true
      else
        match fuel with
        | O => None
        | S n =>
            match h !! la, h !! lb with
            | Some (OInst ca fa), Some (OInst cb fb) =>
                if dc_eq ca && bool_decide (ca = cb)
                then fields_eq (py_eq n h) (dc_fields ca) fa fb
                else Some false
            | Some (ODict da), Some (ODict db) =>
                if bool_decide (size da = size db) then
                  all_opt (λ kv, match db !! kv.1 with
                                 | Some w => py_eq n h kv.2 w
                                 | None => Some false
                                 end) (map_to_list da)
                else Some false
            | Some (OList xa), Some (OList xb) =>
                if bool_decide (length xa = length xb) then
                  all_opt (λ p, py_eq n h p.1 p.2) (zip xa xb)
                else Some false
            | _, _ => Some false
            end
        end
  | VRef _, _ | _, VRef _ => Some false
  | _, _ => Some (scalar_eq a b)
  end.

(** ** The declarations of [slm_interface.py] *)

Definition Exercise : dataclass :=
  {| dc_name := "Exercise";
     dc_fields :=
       [ Field "prompt" TStr Required;
         Field "options" (TOptional (TList TStr)) (Default VNone);
         Field "answer" (TOptional TAny) (Default VNone);
         Field "metadata" (TDict TStr TAny) (DefaultFactory FDict) ];
     dc_eq := true;
     dc_frozen := false |}.

Definition Evaluation : dataclass :=
  {| dc_name := "Evaluation";
     dc_fields :=
       [ Field "is_correct" TBool Required;
         Field "score" TFloat Required;
         Field "feedback" (TOptional TStr) (Default VNone) ];
     dc_eq := true;
     dc_frozen := false |}.

(** [def generate_exercise(self, *, exercise_type: str, level: str,
    **kwargs: Any)]. *)
Definition generate_exercise_sig : signature :=
  {| sig_params :=
       [ Param "self" PositionalOrKeyword Required;
         Param "exercise_type" KeywordOnly Required;
         Param "level" KeywordOnly Required ];
     sig_var_keyword := true |}.

(** [def evaluate_response(self, exercise: Exercise, response: str,
    **kwargs: Any)]. *)
Definition evaluate_response_sig : signature :=
  {| sig_params :=
       [ Param "self" PositionalOrKeyword Required;
         Param "exercise" PositionalOrKeyword Required;
         Param "response" PositionalOrKeyword Required ];
     sig_var_keyword := true |}.

(** [def provide_feedback(self, exercise: Exercise, response: str,
    **kwargs: Any)]. *)
Definition provide_feedback_sig : signature :=
  {| sig_params :=
       [ Param "self" PositionalOrKeyword Required;
         Param "exercise" PositionalOrKeyword Required;
         Param "response" PositionalOrKeyword Required ];
     sig_var_keyword := true |}.

(** A method call [obj.m(args, **kw)]: the receiver is the first
    positional argument. *)
Definition call_method (sg : signature) (self : value) (args : list value)
    (kw : list (string * value))
    : exn + (gmap string value * gmap string value) :=
  bind_args sg (self :: args) kw.

(** ** Abstract base classes *)

(** What a class body binds a name to.  [AbstractMethod] is a [def] under
    [@abstractmethod] (its [__isabstractmethod__] is true). *)
Inductive member : Type :=
| AbstractMethod (sg : signature)
| Method (sg : signature)
| Attribute (v : value).

Definition is_abstract (m : member) : bool :=
  match m with
  | AbstractMethod _ => true
  | _ => false
  end.

(** Classes under the metaclass [ABCMeta], by single inheritance from
    [abc.ABC]. *)
Inductive pyclass : Type :=
| ABC
| Class (name : string) (base : pyclass) (body : gmap string member).


(** [getattr(cls, name)]: the class's own body, then its bases. *)
Fixpoint class_getattr (c : pyclass) (name : string) : option member :=
  match c with
  | ABC => None
  | Class _ base body =>
      match body !! name with
      | Some m => Some m
      | None => class_getattr base name
      end
  end.

(** [cls.__abstractmethods__] as [ABCMeta.__new__] computes it: the abstract
    members of the body, and the abstract names of the base that are still
    abstract when looked up on the new class. *)
Fixpoint abstractmethods (c : pyclass) : gset string :=
  match c with
  | ABC => ∅
  | Class _ base body =>
      dom (filter (λ kv, is_abstract kv.2 = true) body)
      ∪ filter (λ name,
                  from_option is_abstract false
                    (match body !! name with
                     | Some m => Some m
                     | None => class_getattr base name
                     end) = true)
               (abstractmethods base)
  end.


(** [class SLMInterface(ABC)] with its three abstract methods. *)
Definition SLMInterface_abc : pyclass :=
  Class "SLMInterface" ABC
    (<["generate_exercise" := AbstractMethod generate_exercise_sig]>
     (<["evaluate_response" := AbstractMethod evaluate_response_sig]>
      (<["provide_feedback" := AbstractMethod provide_feedback_sig]> ∅))).

Definition operations : list string :=
  ["generate_exercise"; "evaluate_response"; "provide_feedback"].



(** ** Providers *)

(** The capability a concrete provider gives: the three operations, after
    the call's arguments are bound ([kwargs] is the content of
    [**kwargs]).  Python enforces no annotation, so arguments and results
    are values of any shape. *)
Class SLMInterface (P : Type) : Type := {
  generate_exercise : P → value → value → gmap string value → M value;
  evaluate_response : P → value → value → gmap string value → M value;
  provide_feedback : P → value → value → gmap string value → M value
}.


(** What the contract asks of a result of [evaluate_response]. *)
Definition is_finite_number (v : value) : bool :=
  match v with
  | VBool _ | VInt _ => true
  | VFloat f => isfinite f
  | _ => false
  end.

Definition is_strict_bool (v : value) : bool :=
  match v with
  | VBool _ => true
  | _ => false
  end.

(** A provider that answers every request with a blank exercise; its class
    overrides the three operations, so it can be instantiated. *)
Inductive BlankProvider : Type := blank_provider.


#[global] Instance BlankProvider_impl : SLMInterface BlankProvider := {
  generate_exercise _ _ _ _ :=
    l ← dataclass_new Exercise [VStr ""] []; mret (VRef l);
  evaluate_response _ _ _ _ :=
    l ← dataclass_new Evaluation [VBool false; VFloat (S754_zero false)] [];
    mret (VRef l);
  provide_feedback _ _ _ _ := mret (VStr "")
}.

(** Annotations that name a class. *)
Fixpoint mentions_class (a : ann) : bool :=
  match a with
  | TClass _ => true
  | TOptional a' | TList a' => mentions_class a'
  | TDict k v => mentions_class k || mentions_class v
  | _ => false
  end.

Definition field_names (dc : dataclass) : list string :=
  f_name <$> dc_fields dc.

(** The fields a caller may leave out. *)
Definition optional_fields (dc : dataclass) : list string :=
  f_name <$> filter (λ f, f_default f ≠ Required) (dc_fields dc).

Definition required_fields (dc : dataclass) : list string :=
  f_name <$> filter (λ f, f_default f = Required) (dc_fields dc).

(** A call that passes no [metadata]: at most the first three fields
    positionally, and no keyword of that name. *)
Definition without_metadata (args : list value) (kw : list (string * value))
    : bool :=
  bool_decide (length args ≤ 3)%nat && bool_decide ("metadata" ∉ kw.*1).

(** The [__dict__] of a constructed [Exercise] and [Evaluation]. *)
Definition Exercise_attrs (p o a md : value) : gmap string value :=
  <["metadata" := md]>
    (<["answer" := a]> (<["options" := o]> (<["prompt" := p]> ∅))).

Definition Evaluation_attrs (c s f : value) : gmap string value :=
  <["feedback" := f]> (<["score" := s]> (<["is_correct" := c]> ∅)).

(** [l] is an instance of the dataclass [dc]. *)
Definition instance_of (h : heap) (l : loc) (dc : dataclass) : Prop :=
  ∃ attrs, h !! l = Some (OInst dc attrs).

(** Keywords of a call that go to [**kwargs]: distinct names, none of them
    the name of a parameter. *)
Definition extra_keywords (sg : signature) (kw : list (string * value)) : bool :=
  bool_decide (NoDup kw.*1)
  && forallb (λ k, negb (has_param (sig_params sg) k)) kw.*1.


(** ** Concrete runs *)

Example Exercise_scenario :
  ∃ l h, dataclass_new Exercise [VStr "The cat ___ on the mat."]
           [("answer", VStr "sat")] ∅ = Ok l h
         ∧ getattr l "answer" h = Ok (VStr "sat") h
         ∧ getattr l "options" h = Ok VNone h.
Proof. eexists _, _. split; [vm_compute; reflexivity|]. split; vm_compute; reflexivity. Qed.

(** ** Lemmas on argument binding *)

Section Binding.
Implicit Types (sg : signature) (ps : list param).
Implicit Types (acc extra bound : gmap string value).
Implicit Types (kw : list (string * value)).

(** Binding keywords only adds bindings. *)
Lemma bind_keywords_subseteq sg kw acc extra acc' extra' :
  bind_keywords sg kw acc extra = inr (acc', extra') → acc ⊆ acc'.
Proof.
  revert acc extra.
  induction kw as [|[k v] kw IH]; intros acc extra H; simpl in H.
  - by inversion H.
  - destruct (has_param _ k).
    + destruct (acc !! k) eqn:Hk; [done|].
      etrans; [|by eapply IH]. by apply insert_subseteq.
    + destruct (sig_var_keyword sg); [|done].
      destruct (extra !! k); [done|]. by eapply IH.
Qed.

(** A name that is not among the keywords is left as it was. *)
Lemma bind_keywords_other sg kw acc extra acc' extra' k :
  bind_keywords sg kw acc extra = inr (acc', extra') →
  k ∉ kw.*1 → acc' !! k = acc !! k.
Proof.
  revert acc extra.
  induction kw as [|[k' v] kw IH]; intros acc extra H Hk; simpl in *.
  - by inversion H.
  - apply not_elem_of_cons in Hk as [Hne Hk].
    destruct (has_param _ k').
    + destruct (acc !! k'); [done|].
      rewrite (IH _ _ H Hk). by rewrite lookup_insert_ne.
    + destruct (sig_var_keyword sg); [|done].
      destruct (extra !! k'); [done|]. by eapply IH.
Qed.

(** Keywords that name no parameter all land in [**kwargs]. *)
Lemma bind_keywords_extra sg kw acc extra :
  sig_var_keyword sg = true →
  NoDup kw.*1 →
  (∀ k, k ∈ kw.*1 → has_param (sig_params sg) k = false) →
  (∀ k, k ∈ kw.*1 → extra !! k = None) →
  bind_keywords sg kw acc extra = inr (acc, list_to_map kw ∪ extra).
Proof.
  intros Hvar. revert extra.
  induction kw as [|[k v] kw IH]; intros extra Hnd Hp He; simpl in *.
  - by rewrite (left_id_L ∅ (∪)).
  - apply NoDup_cons in Hnd as [Hk Hnd].
    rewrite (Hp k), Hvar, (He k) by (by left).
    rewrite IH; [|done|by intros; apply Hp; right|].
    + do 2 f_equal. rewrite <-insert_union_l, <-insert_union_r; [done|].
      by apply not_elem_of_list_to_map_1.
    + intros k' Hk'. rewrite lookup_insert_ne; [by apply He; right|].
      by intros ->.
Qed.

Lemma apply_defaults_subseteq ps acc bound :
  apply_defaults ps acc = inr bound → acc ⊆ bound.
Proof.
  revert acc. induction ps as [|p ps IH]; intros acc H; simpl in H.
  - by inversion H.
  - destruct (acc !! p_name p) eqn:Hp; [by apply IH|].
    destruct (p_default p); [done| |by apply IH].
    etrans; [|by eapply IH]. by apply insert_subseteq.
Qed.

(** After the defaults, every parameter without a default factory is
    bound. *)
Lemma apply_defaults_bound ps acc bound p :
  apply_defaults ps acc = inr bound →
  p ∈ ps → (∀ f, p_default p ≠ DefaultFactory f) →
  is_Some (bound !! p_name p).
Proof.
  revert acc. induction ps as [|q ps IH]; intros acc H Hin Hnf; simpl in H.
  - by apply elem_of_nil in Hin.
  - apply elem_of_cons in Hin as [->|Hin].
    + destruct (acc !! p_name q) as [v|] eqn:Hq.
      * exists v. eapply lookup_weaken; [exact Hq|].
        by eapply apply_defaults_subseteq.
      * destruct (p_default q) as [|v|f] eqn:Hd; [done| |by destruct (Hnf f)].
        exists v. eapply lookup_weaken; [apply lookup_insert_eq|].
        by eapply apply_defaults_subseteq.
    + destruct (acc !! p_name q); [by eapply IH|].
      destruct (p_default q); [done|by eapply IH|by eapply IH].
Qed.

(** A parameter whose default is a factory is bound only by the call. *)
Lemma apply_defaults_factory ps acc bound k :
  apply_defaults ps acc = inr bound →
  (∀ p, p ∈ ps → p_name p = k → ∃ f, p_default p = DefaultFactory f) →
  bound !! k = acc !! k.
Proof.
  revert acc. induction ps as [|q ps IH]; intros acc H Hf; simpl in H.
  - by inversion H.
  - assert (∀ p, p ∈ ps → p_name p = k → ∃ f, p_default p = DefaultFactory f)
      as Hf' by (intros; apply Hf; [by right|done]).
    destruct (acc !! p_name q) eqn:Hq; [by apply IH|].
    destruct (p_default q) as [|v|f] eqn:Hd; [done| |by apply IH].
    rewrite (IH _ H Hf'). apply lookup_insert_ne. intros Heq.
    destruct (Hf q) as [f Hf'']; [by left|done|congruence].
Qed.

(** A value given by position or keyword is the one bound. *)
Lemma bind_args_inv sg args kw bound extra :
  bind_args sg args kw = inr (bound, extra) →
  ∃ acc acc',
    bind_positional (sig_params sg) args ∅ = inr acc
    ∧ bind_keywords sg kw acc ∅ = inr (acc', extra)
    ∧ apply_defaults (sig_params sg) acc' = inr bound.
Proof.
  unfold bind_args. intros H.
  destruct (bind_positional _ _ _) as [|acc] eqn:Hp; [done|].
  destruct (bind_keywords _ _ _ _) as [|[acc' extra0]] eqn:Hk; [done|].
  destruct (apply_defaults _ _) as [|b] eqn:Hd; [done|].
  inversion H; subst. by exists acc, acc'.
Qed.
End Binding.

(** ** Lemmas on construction *)

Lemma bind_run {A B} (m : M A) (k : A → M B) h :
  (m ≫= k) h = match m h with
               | Ok a h' => k a h'
               | Raise e h' => Raise e h'
               end.
Proof. reflexivity. Qed.

Lemma store_attr_inst l n v c attrs (h : gmap positive obj) :
  h !! l = Some (OInst c attrs) →
  store_attr l n v h = Ok () (<[l := OInst c (<[n := v]> attrs)]> h).
Proof. intros H. unfold store_attr. by rewrite H. Qed.

Lemma fresh_after_alloc (h : gmap positive obj) o :
  let l := fresh (dom h) in
  let m := fresh (dom (<[l := o]> h)) in
  (l ∉ dom h) ∧ (m ∉ dom h) ∧ (m ≠ l).
Proof.
  intros l m. pose proof (is_fresh (dom h)) as Hl.
  pose proof (is_fresh (dom (<[l := o]> h))) as Hm. fold l in Hl. fold m in Hm.
  rewrite dom_insert_L in Hm. set_solver.
Qed.

Ltac step_store :=
  rewrite bind_run; unfold mret at 1, M_ret at 1;
  rewrite bind_run; erewrite store_attr_inst by apply lookup_insert_eq;
  rewrite insert_insert_eq.

Ltac bound_param Hdef name dflt v Hv :=
  destruct (apply_defaults_bound _ _ _ (Param name PositionalOrKeyword dflt) Hdef)
    as [v Hv]; [set_solver|done|]; simpl in Hv.

(** A call of [Exercise] whose arguments bind runs to the end; the
    [metadata] dict is allocated only when the call gave none. *)
Lemma Exercise_new_run args kw (h : gmap positive obj) bound extra :
  let l := fresh (dom h) in
  bind_args (init_signature Exercise) (VRef l :: args) kw = inr (bound, extra) →
  ∃ p o a,
    bound !! "prompt" = Some p ∧ bound !! "options" = Some o
    ∧ bound !! "answer" = Some a
    ∧ dataclass_new Exercise args kw h =
      match bound !! "metadata" with
      | Some md => Ok l (<[l := OInst Exercise (Exercise_attrs p o a md)]> h)
      | None =>
          let m := fresh (dom (<[l := OInst Exercise ∅]> h)) in
          Ok l (<[l := OInst Exercise (Exercise_attrs p o a (VRef m))]>
                  (<[m := ODict ∅]> h))
      end.
Proof.
  intros l Hb.
  pose proof Hb as (acc & acc' & Hpos & Hkw & Hdef)%bind_args_inv.
  bound_param Hdef "prompt" Required p Hp.
  bound_param Hdef "options" (Default VNone) o Ho.
  bound_param Hdef "answer" (Default VNone) a Ha.
  exists p, o, a. do 3 (split; [done|]).
  unfold dataclass_new. rewrite bind_run. unfold alloc. fold l.
  rewrite bind_run, Hb. simpl lift. unfold mret at 1, M_ret at 1.
  rewrite bind_run. simpl init_fields. rewrite Hp, Ho, Ha.
  do 3 step_store.
  destruct (bound !! "metadata") as [md|] eqn:Hmd.
  - by step_store.
  - destruct (fresh_after_alloc h (OInst Exercise ∅)) as (_ & _ & Hne).
    simpl in Hne. rewrite !bind_run. unfold alloc.
    rewrite !dom_insert_L in *. fold l in Hne.
    set (m := fresh ({[l]} ∪ dom h)) in *.
    unfold mret at 1, M_ret at 1.
    rewrite bind_run; erewrite store_attr_inst
      by (rewrite lookup_insert_ne by done; apply lookup_insert_eq).
    rewrite (insert_insert_ne _ m l) by done.
    by rewrite insert_insert_eq.
Qed.

Lemma dataclass_new_unbound dc args kw (h : gmap positive obj) e :
  bind_args (init_signature dc) (VRef (fresh (dom h)) :: args) kw = inl e →
  dataclass_new dc args kw h = Raise e (<[fresh (dom h) := OInst dc ∅]> h).
Proof.
  intros Hb. unfold dataclass_new. rewrite bind_run. unfold alloc.
  by rewrite bind_run, Hb.
Qed.

(** What a successful call of [Exercise] leaves in the store. *)
Lemma Exercise_new_inv args kw (h : gmap positive obj) l h' :
  dataclass_new Exercise args kw h = Ok l h' →
  ∃ bound extra p o a,
    (l ∉ dom h)
    ∧ bind_args (init_signature Exercise) (VRef l :: args) kw
      = inr (bound, extra)
    ∧ bound !! "prompt" = Some p ∧ bound !! "options" = Some o
    ∧ bound !! "answer" = Some a
    ∧ ((∃ md, bound !! "metadata" = Some md
              ∧ h' = <[l := OInst Exercise (Exercise_attrs p o a md)]> h)
       ∨ (∃ m, bound !! "metadata" = None ∧ (m ∉ dom h) ∧ m ≠ l
              ∧ h' = <[l := OInst Exercise (Exercise_attrs p o a (VRef m))]>
                       (<[m := ODict ∅]> h))).
Proof.
  intros H.
  destruct (bind_args (init_signature Exercise)
              (VRef (fresh (dom h)) :: args) kw) as [e|[bound extra]] eqn:Hb.
  { by rewrite (dataclass_new_unbound _ _ _ _ _ Hb) in H. }
  destruct (Exercise_new_run _ _ _ _ _ Hb) as (p & o & a & Hp & Ho & Ha & Hrun).
  destruct (fresh_after_alloc h (OInst Exercise ∅)) as (Hl & Hm & Hne).
  rewrite Hrun in H. exists bound, extra, p, o, a.
  destruct (bound !! "metadata") as [md|] eqn:Hmd; inversion H; subst l h';
    (do 5 (split; [done|])); [left|right]; eauto 10.
Qed.

Lemma Evaluation_new_run args kw (h : gmap positive obj) bound extra :
  let l := fresh (dom h) in
  bind_args (init_signature Evaluation) (VRef l :: args) kw
  = inr (bound, extra) →
  ∃ c s f,
    bound !! "is_correct" = Some c ∧ bound !! "score" = Some s
    ∧ bound !! "feedback" = Some f
    ∧ dataclass_new Evaluation args kw h
      = Ok l (<[l := OInst Evaluation (Evaluation_attrs c s f)]> h).
Proof.
  intros l Hb.
  pose proof Hb as (acc & acc' & Hpos & Hkw & Hdef)%bind_args_inv.
  bound_param Hdef "is_correct" Required c Hc.
  bound_param Hdef "score" Required s Hs.
  bound_param Hdef "feedback" (Default VNone) f Hf.
  exists c, s, f. do 3 (split; [done|]).
  unfold dataclass_new. rewrite bind_run. unfold alloc. fold l.
  rewrite bind_run, Hb. simpl lift. unfold mret at 1, M_ret at 1.
  rewrite bind_run. simpl init_fields. rewrite Hc, Hs, Hf.
  by do 3 step_store.
Qed.

Lemma Evaluation_new_inv args kw (h : gmap positive obj) l h' :
  dataclass_new Evaluation args kw h = Ok l h' →
  ∃ bound extra c s f,
    (l ∉ dom h)
    ∧ bind_args (init_signature Evaluation) (VRef l :: args) kw
      = inr (bound, extra)
    ∧ bound !! "is_correct" = Some c ∧ bound !! "score" = Some s
    ∧ bound !! "feedback" = Some f
    ∧ h' = <[l := OInst Evaluation (Evaluation_attrs c s f)]> h.
Proof.
  intros H.
  destruct (bind_args (init_signature Evaluation)
              (VRef (fresh (dom h)) :: args) kw) as [e|[bound extra]] eqn:Hb.
  { by rewrite (dataclass_new_unbound _ _ _ _ _ Hb) in H. }
  destruct (Evaluation_new_run _ _ _ _ _ Hb) as (c & s & f & Hc & Hs & Hf & Hrun).
  rewrite Hrun in H. inversion H; subst l h'.
  exists bound, extra, c, s, f. repeat split; try done. apply is_fresh.
Qed.

Lemma getattr_inst l n c attrs v (h : gmap positive obj) :
  h !! l = Some (OInst c attrs) → attrs !! n = Some v →
  getattr l n h = Ok v h.
Proof. intros H Hn. unfold getattr. by rewrite H, Hn. Qed.

Lemma Exercise_attrs_lookup p o a md :
  Exercise_attrs p o a md !! "prompt" = Some p
  ∧ Exercise_attrs p o a md !! "options" = Some o
  ∧ Exercise_attrs p o a md !! "answer" = Some a
  ∧ Exercise_attrs p o a md !! "metadata" = Some md.
Proof. by vm_compute. Qed.

Lemma Evaluation_attrs_lookup c s f :
  Evaluation_attrs c s f !! "is_correct" = Some c
  ∧ Evaluation_attrs c s f !! "score" = Some s
  ∧ Evaluation_attrs c s f !! "feedback" = Some f.
Proof. by vm_compute. Qed.

(** The bindings of the calls [Exercise(p)] and [Evaluation(c, s)]. *)
Lemma Exercise_bind_prompt self p :
  bind_args (init_signature Exercise) [self; p] []
  = inr (<["answer" := VNone]> (<["options" := VNone]>
          (<["prompt" := p]> (<["self" := self]> ∅))), ∅).
Proof. reflexivity. Qed.

Lemma Evaluation_bind_two self c s :
  bind_args (init_signature Evaluation) [self; c; s] []
  = inr (<["feedback" := VNone]> (<["score" := s]>
          (<["is_correct" := c]> (<["self" := self]> ∅))), ∅).
Proof. reflexivity. Qed.

(** [Exercise(p)]: the three optional fields take their defaults and the
    metadata is a new, empty dict. *)
Lemma Exercise_new_prompt (p : value) (h : gmap positive obj) :
  ∃ l m,
    (l ∉ dom h) ∧ (m ∉ dom h) ∧ m ≠ l
    ∧ dataclass_new Exercise [p] [] h
      = Ok l (<[l := OInst Exercise (Exercise_attrs p VNone VNone (VRef m))]>
                (<[m := ODict ∅]> h)).
Proof.
  destruct (fresh_after_alloc h (OInst Exercise ∅)) as (Hl & Hm & Hne).
  destruct (Exercise_new_run [p] [] h _ _ (Exercise_bind_prompt _ _))
    as (p' & o & a & Hp & Ho & Ha & Hrun).
  vm_compute in Hp, Ho, Ha. simplify_eq.
  change ((_ : gmap string value) !! "metadata") with (@None value) in Hrun.
  simpl in Hrun, Hm, Hne. eexists _, _.
  split; [exact Hl|]. split; [exact Hm|]. split; [exact Hne|exact Hrun].
Qed.

(** [Evaluation(c, s)]: no argument is inspected. *)
Lemma Evaluation_new_two (c s : value) (h : gmap positive obj) :
  ∃ l, (l ∉ dom h)
    ∧ dataclass_new Evaluation [c; s] [] h
      = Ok l (<[l := OInst Evaluation (Evaluation_attrs c s VNone)]> h).
Proof.
  destruct (Evaluation_new_run [c; s] [] h _ _ (Evaluation_bind_two _ _ _))
    as (c' & s' & f & Hc & Hs & Hf & Hrun).
  vm_compute in Hc, Hs, Hf. simplify_eq.
  eexists. split; [apply is_fresh|done].
Qed.

(** ** The contract *)

(** C4. An [Exercise] constructed from a prompt alone has [options] and
    [answer] equal to [None] and a metadata dict that is empty; [prompt] is
    the only field without a default, and a call that leaves it out is a
    [TypeError]. *)
Theorem Exercise_from_prompt_alone (p : string) (h : gmap positive obj) :
  (∃ l m h',
     dataclass_new Exercise [VStr p] [] h = Ok l h'
     ∧ getattr l "prompt" h' = Ok (VStr p) h'
     ∧ getattr l "options" h' = Ok VNone h'
     ∧ getattr l "answer" h' = Ok VNone h'
     ∧ getattr l "metadata" h' = Ok (VRef m) h'
     ∧ dict_items h' m = Some ∅)
  ∧ required_fields Exercise = ["prompt"]
  ∧ (∃ h', dataclass_new Exercise [] [] h = Raise TypeError h').
Proof.
  split; [|split; [done|]].
  - destruct (Exercise_new_prompt (VStr p) h) as (l & m & Hl & Hm & Hne & Hrun).
    destruct (Exercise_attrs_lookup (VStr p) VNone VNone (VRef m))
      as (Hp & Ho & Ha & Hmd).
    eexists l, m, _. split; [exact Hrun|].
    repeat split;
      try (eapply getattr_inst; [apply lookup_insert_eq|eassumption]).
    unfold dict_items.
    by rewrite lookup_insert_ne, lookup_insert_eq.
  - eexists. by apply dataclass_new_unbound.
Qed.

(** C5. An [Evaluation] constructed from a verdict and a score alone has
    [feedback] equal to [None]; [feedback] is the only field with a
    default, and a call that leaves out [is_correct] or [score] is a
    [TypeError]. *)
Theorem Evaluation_from_verdict_and_score
    (b : bool) (f : spec_float) (h : gmap positive obj) :
  (∃ l h',
     dataclass_new Evaluation [VBool b; VFloat f] [] h = Ok l h'
     ∧ getattr l "is_correct" h' = Ok (VBool b) h'
     ∧ getattr l "score" h' = Ok (VFloat f) h'
     ∧ getattr l "feedback" h' = Ok VNone h')
  ∧ optional_fields Evaluation = ["feedback"]
  ∧ (∃ h', dataclass_new Evaluation [VBool b] [] h = Raise TypeError h')
  ∧ (∃ h', dataclass_new Evaluation [] [("score", VFloat f)] h
           = Raise TypeError h').
Proof.
  split; [|split; [done|split]].
  - destruct (Evaluation_new_two (VBool b) (VFloat f) h) as (l & Hl & Hrun).
    destruct (Evaluation_attrs_lookup (VBool b) (VFloat f) VNone)
      as (Hc & Hs & Hf).
    eexists l, _. split; [exact Hrun|].
    repeat split; eapply getattr_inst; first [apply lookup_insert_eq|eassumption].
  - eexists. by apply dataclass_new_unbound.
  - eexists. by apply dataclass_new_unbound.
Qed.

(** C1, as stated, fails: the constructor accepts an infinite score and a
    verdict that is [None]. *)
Lemma Evaluation_admits_infinite_score :
  ∃ l h,
    dataclass_new Evaluation [VNone; VFloat (S754_infinity false)] [] ∅
    = Ok l h
    ∧ getattr l "score" h = Ok (VFloat (S754_infinity false)) h
    ∧ is_finite_number (VFloat (S754_infinity false)) = false
    ∧ getattr l "is_correct" h = Ok VNone h
    ∧ is_strict_bool VNone = false.
Proof. eexists _, _. split; [by vm_compute|]. by vm_compute. Qed.

(** C1, amended. The constructor of [Evaluation] checks nothing: whatever
    values are passed as verdict and score, the construction succeeds and
    the fields hold exactly those values.  So the score of the result is a
    finite number exactly when the score passed is one, and the verdict is
    a strict boolean exactly when a [bool] was passed. *)
Theorem Evaluation_stores_arguments_unchecked
    (c s : value) (h : gmap positive obj) :
  ∃ l h' c' s',
    dataclass_new Evaluation [c; s] [] h = Ok l h'
    ∧ getattr l "is_correct" h' = Ok c' h'
    ∧ getattr l "score" h' = Ok s' h'
    ∧ c' = c ∧ s' = s
    ∧ is_strict_bool c' = is_strict_bool c
    ∧ is_finite_number s' = is_finite_number s.
Proof.
  destruct (Evaluation_new_two c s h) as (l & Hl & Hrun).
  destruct (Evaluation_attrs_lookup c s VNone) as (Hc & Hs & _).
  eexists l, _, c, s. split; [exact Hrun|].
  split; [|split]; [| |done];
    (eapply getattr_inst; [apply lookup_insert_eq|eassumption]).
Qed.






Lemma bind_keywords_param sg k v kw (acc extra : gmap string value) :
  has_param (sig_params sg) k = true → acc !! k = None →
  bind_keywords sg ((k, v) :: kw) acc extra
  = bind_keywords sg kw (<[k := v]> acc) extra.
Proof. intros Hp Hk. simpl. by rewrite Hp, Hk. Qed.

Lemma bind_keywords_open sg kw (acc : gmap string value) :
  sig_var_keyword sg = true → extra_keywords sg kw = true →
  bind_keywords sg kw acc ∅ = inr (acc, list_to_map kw).
Proof.
  intros Hvar [Hnd Hall]%andb_prop.
  apply bool_decide_eq_true_1 in Hnd.
  rewrite bind_keywords_extra; [by rewrite (right_id_L ∅ (∪))|done..| |done].
  intros k Hk%list_elem_of_In.
  apply (proj1 (forallb_forall _ _) Hall) in Hk.
  by destruct (has_param _ k).
Qed.

(** C3, as stated, fails: [exercise_type] and [level] are declared after a
    bare [*], so a call that passes them by position is refused. *)
Lemma generate_exercise_rejects_positional :
  call_method generate_exercise_sig (VRef 1%positive)
    [VStr "fill_blank"; VStr "beginner"] []
  = inl TypeError.
Proof. reflexivity. Qed.

(** C3, amended. [generate_exercise] takes [exercise_type] and [level] by
    keyword only: passed by name they are bound, and any positional argument
    after the receiver is a [TypeError].  [evaluate_response] and
    [provide_feedback] take [exercise] and [response] by position.  In the
    three operations the further keywords, whose names are no parameter's,
    are collected in [**kwargs]. *)
Theorem required_inputs_binding
    (self t l e r : value) (kw : list (string * value)) :
  extra_keywords generate_exercise_sig kw = true →
  extra_keywords evaluate_response_sig kw = true →
  extra_keywords provide_feedback_sig kw = true →
  call_method generate_exercise_sig self []
    (("exercise_type", t) :: ("level", l) :: kw)
  = inr (<["level" := l]> (<["exercise_type" := t]> (<["self" := self]> ∅)),
         list_to_map kw)
  ∧ (∀ a rest kw',
       call_method generate_exercise_sig self (a :: rest) kw' = inl TypeError)
  ∧ call_method evaluate_response_sig self [e; r] kw
    = inr (<["response" := r]> (<["exercise" := e]> (<["self" := self]> ∅)),
           list_to_map kw)
  ∧ call_method provide_feedback_sig self [e; r] kw
    = inr (<["response" := r]> (<["exercise" := e]> (<["self" := self]> ∅)),
           list_to_map kw).
Proof.
  intros Hg He Hf. unfold call_method, bind_args.
  split; [|split; [done|split]]; simpl bind_positional; cbv beta iota.
  - rewrite !bind_keywords_param by by vm_compute.
    rewrite bind_keywords_open by done.
    by replace (apply_defaults _ _) with (@inr exn _ (<["level" := l]> (<["exercise_type" := t]> (<["self" := self]> (∅ : gmap string value))))) by by vm_compute.
  - rewrite bind_keywords_open by done.
    by replace (apply_defaults _ _) with (@inr exn _ (<["response" := r]> (<["exercise" := e]> (<["self" := self]> (∅ : gmap string value))))) by by vm_compute.
  - rewrite bind_keywords_open by done.
    by replace (apply_defaults _ _) with (@inr exn _ (<["response" := r]> (<["exercise" := e]> (<["self" := self]> (∅ : gmap string value))))) by by vm_compute.
Qed.

Lemma required_inputs_binding_witness :
  call_method generate_exercise_sig (VRef 1%positive) []
    [("exercise_type", VStr "fill_blank"); ("level", VStr "beginner");
     ("topic", VStr "food")]
  = inr (<["level" := VStr "beginner"]>
           (<["exercise_type" := VStr "fill_blank"]>
              (<["self" := VRef 1%positive]> ∅)),
         list_to_map [("topic", VStr "food")]).
Proof.
  apply (required_inputs_binding (VRef 1%positive) (VStr "fill_blank")
           (VStr "beginner") VNone VNone [("topic", VStr "food")]);
    reflexivity.
Defined.

(** ** Equality of instances *)

Lemma all_opt_true {A} (f : A → option bool) (l : list A) :
  (∀ x, x ∈ l → f x = Some true) → all_opt f l = Some true.
Proof.
  induction l as [|x l IH]; intros H; simpl; [done|].
  rewrite (H x) by by left. apply IH. intros y Hy. apply H. by right.
Qed.

(** C6. Two [Evaluation] values whose [is_correct], [score] and [feedback]
    are respectively equal compare equal, whether or not they are the same
    object. *)
Theorem Evaluation_eq_by_value
    (fuel : nat) (h : gmap positive obj) (la lb : loc) :
  instance_of h la Evaluation → instance_of h lb Evaluation →
  (∀ name, name ∈ field_names Evaluation →
     ∃ x y, getattr la name h = Ok x h ∧ getattr lb name h = Ok y h
            ∧ py_eq fuel h x y = Some true) →
  py_eq (S fuel) h (VRef la) (VRef lb) = Some true.
Proof.
  intros [fa Ha] [fb Hb] Hfields. simpl.
  destruct (decide (la = lb)); [done|].
  rewrite Ha, Hb, bool_decide_eq_true_2 by done. simpl dc_eq. simpl andb.
  apply all_opt_true. intros f Hf.
  destruct (Hfields (f_name f)) as (x & y & Hx & Hy & Hxy).
  { unfold field_names. by apply list_elem_of_fmap_2. }
  unfold getattr in Hx, Hy. rewrite Ha in Hx. rewrite Hb in Hy.
  destruct (fa !! f_name f); [|done]. destruct (fb !! f_name f); [|done].
  by simplify_eq.
Qed.

(** [Evaluation(True, 1, None) == Evaluation(True, 1.0, None)], two
    distinct objects. *)
Lemma Evaluation_eq_by_value_witness :
  py_eq 1
    (<[2%positive := OInst Evaluation
         (Evaluation_attrs (VBool true)
            (VFloat (S754_finite false 4503599627370496 (-52))) VNone)]>
       (<[1%positive := OInst Evaluation
            (Evaluation_attrs (VBool true) (VInt 1) VNone)]> ∅))
    (VRef 1%positive) (VRef 2%positive)
  = Some true.
Proof.
  apply Evaluation_eq_by_value.
  - eexists. reflexivity.
  - eexists. reflexivity.
  - intros name Hin. unfold field_names in Hin. simpl in Hin.
    repeat (apply elem_of_cons in Hin as [->|Hin]);
      [| | |by apply elem_of_nil in Hin];
      eexists _, _; (split; [|split]); vm_compute; reflexivity.
Defined.

(** C7. [Exercise] has exactly the fields [prompt], [options], [answer] and
    [metadata], and [Evaluation] exactly [is_correct], [score] and
    [feedback]; no annotation of a field names a class, and an instance
    comes out of its constructor with exactly those attributes, whatever
    the arguments. *)
Theorem record_fields :
  field_names Exercise = ["prompt"; "options"; "answer"; "metadata"]
  ∧ field_names Evaluation = ["is_correct"; "score"; "feedback"]
  ∧ forallb (λ f, negb (mentions_class (f_type f)))
      (dc_fields Exercise ++ dc_fields Evaluation) = true
  ∧ (∀ args kw (h : gmap positive obj) l h',
       dataclass_new Exercise args kw h = Ok l h' →
       ∃ attrs, h' !! l = Some (OInst Exercise attrs)
                ∧ dom attrs = list_to_set (field_names Exercise))
  ∧ (∀ args kw (h : gmap positive obj) l h',
       dataclass_new Evaluation args kw h = Ok l h' →
       ∃ attrs, h' !! l = Some (OInst Evaluation attrs)
                ∧ dom attrs = list_to_set (field_names Evaluation)).
Proof.
  do 3 (split; [done|]). split.
  - intros args kw h l h' H.
    apply Exercise_new_inv in H
      as (bound & extra & p & o & a & _ & _ & _ & _ & _ & H).
    destruct H as [(md & _ & ->)|(m & _ & _ & _ & ->)];
      eexists; (split; [apply lookup_insert_eq|by vm_compute]).
  - intros args kw h l h' H.
    apply Evaluation_new_inv in H
      as (bound & extra & c & s & f & _ & _ & _ & _ & _ & ->).
    eexists. split; [apply lookup_insert_eq|by vm_compute].
Qed.

Lemma record_fields_witness :
  ∃ attrs,
    (<[1%positive := OInst Evaluation
         (Evaluation_attrs (VBool true) (VInt 1) VNone)]> ∅ : gmap positive obj)
      !! 1%positive = Some (OInst Evaluation attrs)
    ∧ dom attrs = list_to_set (field_names Evaluation).
Proof.
  destruct record_fields as (_ & _ & _ & _ & HE).
  apply (HE [VBool true; VInt 1] [] ∅). vm_compute. reflexivity.
Defined.

(** ** The default of [metadata] *)

(** A call that passes no metadata leaves the parameter unbound. *)
Lemma Exercise_metadata_unbound self args kw bound extra :
  without_metadata args kw = true →
  bind_args (init_signature Exercise) (self :: args) kw = inr (bound, extra) →
  bound !! "metadata" = None.
Proof.
  intros [Hlen Hkw%bool_decide_eq_true_1]%andb_prop Hb.
  apply bool_decide_eq_true_1 in Hlen.
  apply bind_args_inv in Hb as (acc & acc' & Hpos & Hk & Hdef).
  rewrite (apply_defaults_factory _ _ _ "metadata" Hdef).
  - rewrite (bind_keywords_other _ _ _ _ _ _ _ Hk Hkw).
    destruct args as [|a1 [|a2 [|a3 [|a4 ?]]]]; simpl in Hlen; [..|lia];
      simpl in Hpos; injection Hpos as <-; by vm_compute.
  - intros p Hp Hn. simpl in Hp.
    repeat (apply elem_of_cons in Hp as [->|Hp]); try done; [by eexists|].
    by apply elem_of_nil in Hp.
Qed.

Lemma dict_setitem_dict l k v d (h : gmap positive obj) :
  h !! l = Some (ODict d) →
  dict_setitem l k v h = Ok () (<[l := ODict (<[k := v]> d)]> h).
Proof. intros H. unfold dict_setitem. by rewrite H. Qed.

Lemma dict_items_Some (h : gmap positive obj) l d :
  dict_items h l = Some d ↔ h !! l = Some (ODict d).
Proof.
  unfold dict_items. split.
  - destruct (h !! l) as [[]|]; naive_solver.
  - by intros ->.
Qed.

(** What a call of [Exercise] without metadata leaves in the store. *)
Lemma Exercise_new_default_metadata args kw (h : gmap positive obj) l h' :
  without_metadata args kw = true →
  dataclass_new Exercise args kw h = Ok l h' →
  ∃ m p o a,
    (l ∉ dom h) ∧ (m ∉ dom h) ∧ m ≠ l
    ∧ h' = <[l := OInst Exercise (Exercise_attrs p o a (VRef m))]>
             (<[m := ODict ∅]> h).
Proof.
  intros Hw H.
  apply Exercise_new_inv in H
    as (bound & extra & p & o & a & Hl & Hb & _ & _ & _ & H).
  rewrite (Exercise_metadata_unbound _ _ _ _ _ Hw Hb) in H.
  destruct H as [(md & ? & _)|(m & _ & Hm & Hne & ->)]; [done|].
  by exists m, p, o, a.
Qed.

(** C9. Two [Exercise] values constructed without a metadata argument hold
    two distinct dicts, each created empty at its construction: whatever
    the first has become by the time the second is constructed, the second
    is empty, and an item set in either one leaves the other as it was. *)
Theorem default_metadata_independent
    (h h1 h1' h2 : gmap positive obj) (args1 args2 : list value)
    (kw1 kw2 : list (string * value)) (l1 l2 m1 : loc)
    (d1 : gmap string value) :
  without_metadata args1 kw1 = true →
  without_metadata args2 kw2 = true →
  dataclass_new Exercise args1 kw1 h = Ok l1 h1 →
  getattr l1 "metadata" h1 = Ok (VRef m1) h1 →
  dict_items h1' m1 = Some d1 →
  dataclass_new Exercise args2 kw2 h1' = Ok l2 h2 →
  ∃ m2,
    getattr l2 "metadata" h2 = Ok (VRef m2) h2
    ∧ m2 ≠ m1
    ∧ dict_items h1 m1 = Some ∅
    ∧ dict_items h2 m1 = Some d1
    ∧ dict_items h2 m2 = Some ∅
    ∧ ∀ k v,
        (∃ h3, dict_setitem m1 k v h2 = Ok () h3
               ∧ dict_items h3 m1 = Some (<[k := v]> d1)
               ∧ dict_items h3 m2 = Some ∅)
        ∧ (∃ h3, dict_setitem m2 k v h2 = Ok () h3
                 ∧ dict_items h3 m2 = Some {[k := v]}
                 ∧ dict_items h3 m1 = Some d1).
Proof.
  intros Hw1 Hw2 H1 Hg1 Hd1 H2.
  apply Exercise_new_default_metadata in H1
    as (m & p & o & a & Hl1 & Hm & Hne & ->); [|done].
  apply Exercise_new_default_metadata in H2
    as (m2 & p2 & o2 & a2 & Hl2 & Hm2 & Hne2 & ->); [|done].
  destruct (Exercise_attrs_lookup p o a (VRef m)) as (_ & _ & _ & Hmd).
  destruct (Exercise_attrs_lookup p2 o2 a2 (VRef m2)) as (_ & _ & _ & Hmd2).
  erewrite getattr_inst in Hg1; [|apply lookup_insert_eq|exact Hmd].
  injection Hg1 as <-.
  apply dict_items_Some in Hd1.
  assert (m ∈ dom h1') as Hin by (apply elem_of_dom; eauto).
  assert (m2 ≠ m) as Hm2m by (intros ->; done).
  assert (l2 ≠ m) as Hl2m by (intros ->; done).
  exists m2. split; [|split; [done|split; [|split; [|split]]]].
  - eapply getattr_inst; [apply lookup_insert_eq|exact Hmd2].
  - apply dict_items_Some. by rewrite lookup_insert_ne, lookup_insert_eq.
  - apply dict_items_Some. by rewrite !lookup_insert_ne.
  - apply dict_items_Some. by rewrite lookup_insert_ne, lookup_insert_eq.
  - intros k v. split.
    + eexists. split; [|split].
      * apply dict_setitem_dict. by rewrite !lookup_insert_ne.
      * apply dict_items_Some. by rewrite lookup_insert_eq.
      * apply dict_items_Some.
        by rewrite 2!lookup_insert_ne, lookup_insert_eq by done.
    + eexists. split; [|split].
      * apply dict_setitem_dict. by rewrite lookup_insert_ne, lookup_insert_eq.
      * apply dict_items_Some. by rewrite lookup_insert_eq.
      * apply dict_items_Some. by rewrite !lookup_insert_ne.
Qed.

Lemma default_metadata_independent_witness :
  ∃ m2 h2 h3,
    dataclass_new Exercise [VStr "b"] []
      (<[1%positive := OInst Exercise
           (Exercise_attrs (VStr "a") VNone VNone (VRef 2%positive))]>
         (<[2%positive := ODict ∅]> ∅)) = Ok 3%positive h2
    ∧ getattr 3%positive "metadata" h2 = Ok (VRef m2) h2
    ∧ dict_setitem 2%positive "level" (VStr "A1") h2 = Ok () h3
    ∧ dict_items h3 2%positive = Some {["level" := VStr "A1"]}
    ∧ dict_items h3 m2 = Some ∅.
Proof.
  pose (h1 := <[1%positive := OInst Exercise
                  (Exercise_attrs (VStr "a") VNone VNone (VRef 2%positive))]>
                (<[2%positive := ODict ∅]> (∅ : gmap positive obj))).
  pose (h2 := <[3%positive := OInst Exercise
                  (Exercise_attrs (VStr "b") VNone VNone (VRef 4%positive))]>
                (<[4%positive := ODict ∅]> h1)).
  destruct (default_metadata_independent ∅ h1 h1 h2 [VStr "a"] [VStr "b"] [] []
              1%positive 3%positive 2%positive ∅)
    as (m2 & Hg & _ & _ & _ & _ & Hset).
  - reflexivity.
  - reflexivity.
  - vm_compute. reflexivity.
  - vm_compute. reflexivity.
  - vm_compute. reflexivity.
  - vm_compute. reflexivity.
  - destruct (Hset "level" (VStr "A1")) as [(h3 & Hs & H1 & H2) _].
    exists m2, h2, h3. split; [vm_compute; reflexivity|].
    split; [exact Hg|]. split; [exact Hs|]. split; [exact H1|exact H2].
Defined.

(** ** Instantiation of the abstract base class *)

Lemma class_getattr_Class name base body n :
  class_getattr (Class name base body) n
  = match body !! n with
    | Some m => Some m
    | None => class_getattr base n
    end.
Proof. reflexivity. Qed.

Lemma elem_of_abstractmethods name base body n :
  n ∈ abstractmethods (Class name base body) ↔
  (∃ m, body !! n = Some m ∧ is_abstract m = true)
  ∨ (n ∈ abstractmethods base
     ∧ from_option is_abstract false (class_getattr (Class name base body) n)
       = true).
Proof.
  simpl abstractmethods. rewrite elem_of_union, elem_of_dom, elem_of_filter.
  rewrite class_getattr_Class. split.
  - intros [[m [Hm Hab]%map_lookup_filter_Some]|[Hab Hn]]; [left|right]; eauto.
  - intros [(m & Hm & Hab)|[Hn Hab]]; [left|right; done].
    exists m. by apply map_lookup_filter_Some.
Qed.


Lemma SLMInterface_abstractmethods :
  abstractmethods SLMInterface_abc = list_to_set operations.
Proof. reflexivity. Qed.




(** * Further properties of the declarations *)

(** ** Failures of the binding *)

Lemma bind_positional_error ps args (acc : gmap string value) e :
  bind_positional ps args acc = inl e → e = TypeError.
Proof.
  revert args acc. induction ps as [|p ps IH]; intros [|a args] acc H;
    simpl in H; try discriminate; [by inversion H|].
  destruct (p_kind p); [by eapply IH|by inversion H].
Qed.

Lemma bind_keywords_error sg kw (acc extra : gmap string value) e :
  bind_keywords sg kw acc extra = inl e → e = TypeError.
Proof.
  revert acc extra.
  induction kw as [|[k v] kw IH]; intros acc extra H; simpl in H;
    [discriminate|].
  destruct (has_param _ k).
  - destruct (acc !! k); [by inversion H|by eapply IH].
  - destruct (sig_var_keyword sg); [|by inversion H].
    destruct (extra !! k); [by inversion H|by eapply IH].
Qed.

Lemma apply_defaults_error ps (acc : gmap string value) e :
  apply_defaults ps acc = inl e → e = TypeError.
Proof.
  revert acc. induction ps as [|p ps IH]; intros acc H; simpl in H;
    [discriminate|].
  destruct (acc !! p_name p); [by eapply IH|].
  destruct (p_default p); [by inversion H|by eapply IH..].
Qed.

(** Whatever goes wrong in a call, the exception is a [TypeError]. *)
Lemma bind_args_error sg args kw e :
  bind_args sg args kw = inl e → e = TypeError.
Proof.
  unfold bind_args. intros H.
  destruct (bind_positional _ _ _) as [e1|acc] eqn:Hp.
  { inversion H; subst. by eapply bind_positional_error. }
  destruct (bind_keywords _ _ _ _) as [e2|[acc' extra]] eqn:Hk.
  { inversion H; subst. by eapply bind_keywords_error. }
  destruct (apply_defaults _ _) as [e3|b] eqn:Hd; [|discriminate].
  inversion H; subst. by eapply apply_defaults_error.
Qed.

Lemma bind_args_fails sg args kw :
  (∀ bound extra, bind_args sg args kw ≠ inr (bound, extra)) →
  bind_args sg args kw = inl TypeError.
Proof.
  intros H. destruct (bind_args sg args kw) as [e|[bound extra]] eqn:Hb.
  - by rewrite (bind_args_error _ _ _ _ Hb).
  - by destruct (H bound extra).
Qed.

(** More positional arguments than parameters. *)
Lemma bind_positional_too_many ps args (acc : gmap string value) :
  length ps < length args → bind_positional ps args acc = inl TypeError.
Proof.
  revert args acc. induction ps as [|p ps IH]; intros [|a args] acc Hlen;
    simpl in *; try lia; [done|].
  destruct (p_kind p); [apply IH; lia|done].
Qed.

(** The first parameters are bound by the positional arguments. *)
Lemma bind_positional_mono ps args (acc acc' : gmap string value) k :
  bind_positional ps args acc = inr acc' →
  is_Some (acc !! k) → is_Some (acc' !! k).
Proof.
  revert args acc. induction ps as [|q ps IH]; intros [|a args] acc H Hk;
    simpl in H; try discriminate; try (by inversion H; subst).
  destruct (p_kind q); [|discriminate].
  eapply IH; [exact H|]. destruct (decide (p_name q = k)) as [->|].
  - rewrite lookup_insert_eq. eauto.
  - by rewrite lookup_insert_ne.
Qed.

Lemma bind_positional_bound ps args (acc acc' : gmap string value) i p :
  bind_positional ps args acc = inr acc' →
  ps !! i = Some p → i < length args →
  is_Some (acc' !! p_name p).
Proof.
  revert args acc i. induction ps as [|q ps IH]; intros [|a args] acc i H Hi Hlen;
    simpl in *; try lia; try discriminate.
  destruct (p_kind q) eqn:Hq; [|discriminate].
  destruct i as [|i]; simpl in Hi.
  - injection Hi as ->. eapply bind_positional_mono; [exact H|].
    rewrite lookup_insert_eq. eauto.
  - eapply IH; [exact H|exact Hi|lia].
Qed.

(** A keyword that names no parameter of a signature without [**kwargs],
    or a parameter that is bound already, makes the call fail. *)
Lemma bind_keywords_fails sg kw (acc extra : gmap string value) k :
  k ∈ kw.*1 →
  (has_param (sig_params sg) k = false ∧ sig_var_keyword sg = false)
  ∨ (has_param (sig_params sg) k = true ∧ is_Some (acc !! k)) →
  bind_keywords sg kw acc extra = inl TypeError.
Proof.
  revert acc extra. induction kw as [|[k' v] kw IH]; intros acc extra Hin Hk.
  { by apply elem_of_nil in Hin. }
  simpl in *. apply elem_of_cons in Hin as [<-|Hin].
  - destruct Hk as [[-> ->]|[-> [x ->]]]; done.
  - destruct (has_param _ k') eqn:Hp'.
    + destruct (acc !! k') eqn:Hk'; [done|]. apply IH; [done|].
      destruct Hk as [?|[? Hs]]; [by left|right]. split; [done|].
      destruct (decide (k' = k)) as [->|]; [by rewrite lookup_insert_eq|].
      by rewrite lookup_insert_ne.
    + destruct (sig_var_keyword sg) eqn:Hv; [|done].
      destruct (extra !! k'); [done|]. by apply IH.
Qed.

Lemma has_param_true ps p : p ∈ ps → has_param ps (p_name p) = true.
Proof.
  intros Hin. unfold has_param. apply existsb_exists.
  exists p. split; [by apply list_elem_of_In|apply String.eqb_refl].
Qed.

Lemma has_param_false ps k : k ∉ p_name <$> ps → has_param ps k = false.
Proof.
  intros Hk. unfold has_param. apply not_true_is_false.
  intros (p & Hin%list_elem_of_In & Heq%String.eqb_eq)%existsb_exists.
  apply Hk. subst k. by apply list_elem_of_fmap_2.
Qed.

Lemma init_signature_names dc :
  p_name <$> sig_params (init_signature dc) = "self" :: field_names dc.
Proof.
  unfold init_signature, field_names. simpl. f_equal.
  rewrite <-list_fmap_compose. by apply list_fmap_ext.
Qed.

(** A constructor call whose arguments do not bind raises [TypeError]. *)
Lemma dataclass_new_TypeError dc args kw (h : gmap positive obj) :
  (∀ self bound extra,
     bind_args (init_signature dc) (self :: args) kw ≠ inr (bound, extra)) →
  ∃ h', dataclass_new dc args kw h = Raise TypeError h'.
Proof.
  intros H. eexists. apply dataclass_new_unbound.
  apply bind_args_fails. intros bound extra. apply H.
Qed.

(** X1. The constructor of a dataclass, so that of [Exercise] and of
    [Evaluation], takes no more positional arguments than the class has
    fields: a call with more raises [TypeError], whatever its keywords. *)
Theorem constructor_surplus_positional
    (dc : dataclass) (args : list value) (kw : list (string * value))
    (h : gmap positive obj) :
  length (dc_fields dc) < length args →
  ∃ h', dataclass_new dc args kw h = Raise TypeError h'.
Proof.
  intros Hlen. apply dataclass_new_TypeError. intros self bound extra Hb.
  apply bind_args_inv in Hb as (acc & _ & Hpos & _).
  rewrite bind_positional_too_many in Hpos; [done|].
  simpl. rewrite length_fmap. lia.
Qed.

Lemma constructor_surplus_positional_witness :
  ∃ h', dataclass_new Evaluation
          [VBool true; VInt 1; VNone; VStr "extra"] [] ∅
        = Raise TypeError h'.
Proof.
  apply (constructor_surplus_positional Evaluation
           [VBool true; VInt 1; VNone; VStr "extra"] [] ∅).
  simpl. lia.
Defined.

(** X2. The constructors take no keyword but the names of the fields: a
    call with any other keyword raises [TypeError]. *)
Theorem constructor_unknown_keyword
    (dc : dataclass) (args : list value) (kw : list (string * value))
    (h : gmap positive obj) (k : string) :
  k ∈ kw.*1 → k ∉ field_names dc →
  ∃ h', dataclass_new dc args kw h = Raise TypeError h'.
Proof.
  intros Hin Hk. apply dataclass_new_TypeError. intros self bound extra Hb.
  apply bind_args_inv in Hb as (acc & acc' & Hpos & Hkw & _).
  rewrite (bind_keywords_fails _ _ _ _ k Hin) in Hkw; [done|].
  destruct (decide (k = "self")) as [->|Hself].
  - right. split; [done|].
    by eapply (bind_positional_bound _ _ _ _ 0
                 (Param "self" PositionalOrKeyword Required));
      [exact Hpos| |simpl; lia].
  - left. split; [|done]. apply has_param_false.
    rewrite init_signature_names. by intros [?|?]%elem_of_cons.
Qed.

Lemma constructor_unknown_keyword_witness :
  ∃ h', dataclass_new Exercise [VStr "a"] [("id", VInt 7)] ∅
        = Raise TypeError h'.
Proof.
  apply (constructor_unknown_keyword Exercise [VStr "a"] [("id", VInt 7)] ∅
           "id").
  - by left.
  - unfold field_names. simpl. intros Hin.
    repeat (apply elem_of_cons in Hin as [Hin|Hin]; [discriminate|]).
    by apply elem_of_nil in Hin.
Defined.

(** X3. A field cannot be given twice: a call that passes a field by
    position and again by keyword raises [TypeError]. *)
Theorem constructor_field_given_twice
    (dc : dataclass) (args : list value) (kw : list (string * value))
    (h : gmap positive obj) (i : nat) (f : field) :
  dc_fields dc !! i = Some f → i < length args → f_name f ∈ kw.*1 →
  ∃ h', dataclass_new dc args kw h = Raise TypeError h'.
Proof.
  intros Hf Hlen Hin. apply dataclass_new_TypeError.
  intros self bound extra Hb.
  apply bind_args_inv in Hb as (acc & acc' & Hpos & Hkw & _).
  set (p := Param (f_name f) PositionalOrKeyword (f_default f)).
  assert (sig_params (init_signature dc) !! S i = Some p) as Hp.
  { simpl. by rewrite list_lookup_fmap, Hf. }
  rewrite (bind_keywords_fails _ _ _ _ (f_name f) Hin) in Hkw; [done|].
  right. split.
  - apply (has_param_true _ p). by eapply list_elem_of_lookup_2.
  - by eapply (bind_positional_bound _ _ _ _ (S i) p);
      [exact Hpos|exact Hp|simpl; lia].
Qed.

Lemma constructor_field_given_twice_witness :
  ∃ h', dataclass_new Exercise [VStr "a"] [("prompt", VStr "b")] ∅
        = Raise TypeError h'.
Proof.
  apply (constructor_field_given_twice Exercise [VStr "a"]
           [("prompt", VStr "b")] ∅ 0 (Field "prompt" TStr Required)).
  - reflexivity.
  - simpl. lia.
  - by left.
Defined.

(** ** The order of keywords *)

Lemma bind_keywords_swap sg x y kw (acc extra : gmap string value) :
  bind_keywords sg (x :: y :: kw) acc extra
  = bind_keywords sg (y :: x :: kw) acc extra.
Proof.
  destruct x as [kx vx], y as [ky vy]. simpl.
  destruct (decide (kx = ky)) as [->|Hne].
  - destruct (has_param _ ky).
    + destruct (acc !! ky) eqn:Hk; [done|]. by rewrite !lookup_insert_eq.
    + destruct (sig_var_keyword sg); [|done].
      destruct (extra !! ky) eqn:Hk; [done|]. by rewrite !lookup_insert_eq.
  - destruct (has_param _ kx), (has_param _ ky).
    + rewrite !lookup_insert_ne by done.
      destruct (acc !! kx), (acc !! ky); try done.
      by rewrite insert_insert_ne.
    + destruct (sig_var_keyword sg), (acc !! kx), (extra !! ky); done.
    + destruct (sig_var_keyword sg), (acc !! ky), (extra !! kx); done.
    + destruct (sig_var_keyword sg); [|done].
      rewrite !lookup_insert_ne by done.
      destruct (extra !! kx), (extra !! ky); try done.
      by rewrite insert_insert_ne.
Qed.

Lemma bind_keywords_perm sg kw kw' (acc extra : gmap string value) :
  kw ≡ₚ kw' →
  bind_keywords sg kw acc extra = bind_keywords sg kw' acc extra.
Proof.
  intros Hperm. revert acc extra.
  induction Hperm as [|[k v] kw kw' _ IH|x y kw|kw1 kw2 kw3 _ IH1 _ IH2];
    intros acc extra.
  - done.
  - simpl. destruct (has_param _ k).
    + destruct (acc !! k); [done|apply IH].
    + destruct (sig_var_keyword sg); [|done].
      destruct (extra !! k); [done|apply IH].
  - apply bind_keywords_swap.
  - by rewrite IH1.
Qed.

Lemma bind_args_perm sg args kw kw' :
  kw ≡ₚ kw' → bind_args sg args kw = bind_args sg args kw'.
Proof.
  intros Hperm. unfold bind_args.
  destruct (bind_positional _ _ _); [done|].
  by rewrite (bind_keywords_perm _ _ _ _ _ Hperm).
Qed.

(** X4. The order in which a call writes its keyword arguments is without
    effect: two calls of an operation that differ only by that order bind
    alike, parameters and [**kwargs], or fail alike. *)
Theorem keyword_order_irrelevant
    (sg : signature) (self : value) (args : list value)
    (kw kw' : list (string * value)) :
  kw ≡ₚ kw' →
  call_method sg self args kw = call_method sg self args kw'.
Proof. intros Hperm. by apply bind_args_perm. Qed.

Lemma keyword_order_irrelevant_witness :
  call_method generate_exercise_sig (VRef 1%positive) []
    [("exercise_type", VStr "vocab_quiz"); ("level", VStr "A2")]
  = call_method generate_exercise_sig (VRef 1%positive) []
      [("level", VStr "A2"); ("exercise_type", VStr "vocab_quiz")].
Proof.
  apply keyword_order_irrelevant. apply perm_swap.
Defined.

(** X5. The same holds of the constructors: two calls of [Exercise], or of
    [Evaluation], that differ only by the order of their keywords have the
    same outcome. *)
Theorem constructor_keyword_order_irrelevant
    (dc : dataclass) (args : list value) (kw kw' : list (string * value))
    (h : gmap positive obj) :
  kw ≡ₚ kw' →
  dataclass_new dc args kw h = dataclass_new dc args kw' h.
Proof.
  intros Hperm. unfold dataclass_new. rewrite !bind_run. unfold alloc.
  rewrite !bind_run. by rewrite (bind_args_perm _ _ _ _ Hperm).
Qed.

Lemma constructor_keyword_order_irrelevant_witness :
  dataclass_new Exercise [VStr "a"]
    [("answer", VStr "x"); ("options", VNone)] ∅
  = dataclass_new Exercise [VStr "a"]
      [("options", VNone); ("answer", VStr "x")] ∅.
Proof.
  apply constructor_keyword_order_irrelevant. apply perm_swap.
Defined.

(** ** Required arguments of the operations *)

(** A parameter without a default that the call did not bind makes the
    binding fail. *)
Lemma apply_defaults_required ps (acc bound : gmap string value) p :
  apply_defaults ps acc = inr bound →
  p ∈ ps → p_default p = Required → NoDup (p_name <$> ps) →
  is_Some (acc !! p_name p).
Proof.
  revert acc. induction ps as [|q ps IH]; intros acc H Hin Hreq Hnd.
  { by apply elem_of_nil in Hin. }
  simpl in H. rewrite fmap_cons in Hnd. apply NoDup_cons in Hnd as [Hq Hnd].
  apply elem_of_cons in Hin as [->|Hin].
  - destruct (acc !! p_name q); [eauto|]. by rewrite Hreq in H.
  - destruct (acc !! p_name q) eqn:Hacc; [by eapply IH|].
    destruct (p_default q) as [|v|f]; [done| |by eapply IH].
    assert (p_name q ≠ p_name p) as Hne.
    { intros Heq. apply Hq. rewrite Heq. by apply list_elem_of_fmap_2. }
    specialize (IH _ H Hin Hreq Hnd). by rewrite lookup_insert_ne in IH.
Qed.

Lemma call_fails_unbound sg self args kw p acc :
  bind_positional (sig_params sg) (self :: args) ∅ = inr acc →
  acc !! p_name p = None → p_name p ∉ kw.*1 →
  p ∈ sig_params sg → p_default p = Required →
  NoDup (p_name <$> sig_params sg) →
  call_method sg self args kw = inl TypeError.
Proof.
  intros Hpos Hacc Hkw Hin Hreq Hnd. apply bind_args_fails.
  intros bound extra (acc0 & acc' & Hpos' & Hk & Hdef)%bind_args_inv.
  rewrite Hpos in Hpos'. injection Hpos' as <-.
  destruct (apply_defaults_required _ _ _ _ Hdef Hin Hreq Hnd) as [v Hv].
  rewrite (bind_keywords_other _ _ _ _ _ _ _ Hk Hkw) in Hv. congruence.
Qed.

Ltac sig_nodup := simpl; repeat (apply NoDup_cons; split;
  [intros Hx; repeat (apply elem_of_cons in Hx as [Hx|Hx]; [discriminate|]);
   by apply elem_of_nil in Hx|]); apply NoDup_nil_2.

(** X6. [generate_exercise] cannot be called without [exercise_type] or
    without [level]: a call that leaves one out of its keywords raises
    [TypeError], whatever else it passes. *)
Theorem generate_exercise_requires_both
    (self : value) (args : list value) (kw : list (string * value)) :
  "exercise_type" ∉ kw.*1 ∨ "level" ∉ kw.*1 →
  call_method generate_exercise_sig self args kw = inl TypeError.
Proof.
  intros Hmiss. destruct args as [|a args]; [|done].
  destruct Hmiss as [Hk|Hk].
  - by apply (call_fails_unbound _ _ _ _
                (Param "exercise_type" KeywordOnly Required)
                (<["self" := self]> ∅));
      [| |exact Hk|right; left| |sig_nodup].
  - by apply (call_fails_unbound _ _ _ _
                (Param "level" KeywordOnly Required)
                (<["self" := self]> ∅));
      [| |exact Hk|right; right; left| |sig_nodup].
Qed.

Lemma generate_exercise_requires_both_witness :
  call_method generate_exercise_sig (VRef 1%positive) []
    [("exercise_type", VStr "fill_blank")]
  = inl TypeError.
Proof.
  apply generate_exercise_requires_both. right. simpl.
  intros Hin. apply elem_of_cons in Hin as [Hin|Hin]; [discriminate|].
  by apply elem_of_nil in Hin.
Defined.

(** X7. [evaluate_response] and [provide_feedback] take the receiver and at
    most two positional arguments, and need both [exercise] and
    [response]: a third positional argument raises [TypeError], and so does
    a call that gives [exercise], or [response], neither by position nor by
    keyword. *)
Theorem evaluate_response_arity
    (sg : signature) (self : value) (args : list value)
    (kw : list (string * value)) :
  sg = evaluate_response_sig ∨ sg = provide_feedback_sig →
  (2 < length args)%nat
  ∨ (length args = 0%nat ∧ "exercise" ∉ kw.*1)
  ∨ ((length args ≤ 1)%nat ∧ "response" ∉ kw.*1) →
  call_method sg self args kw = inl TypeError.
Proof.
  intros Hsg Hbad.
  assert (sg = evaluate_response_sig) as -> by (by destruct Hsg as [->| ->]).
  destruct Hbad as [Hlen|[[Hlen Hk]|[Hlen Hk]]].
  - apply bind_args_fails.
    intros bound extra (acc & _ & Hpos & _)%bind_args_inv.
    rewrite bind_positional_too_many in Hpos; [done|]. simpl. lia.
  - destruct args; [|done].
    by apply (call_fails_unbound _ _ _ _
                (Param "exercise" PositionalOrKeyword Required)
                (<["self" := self]> ∅));
      [| |exact Hk|right; left| |sig_nodup].
  - destruct args as [|a [|b args]]; [| |simpl in Hlen; lia].
    + by apply (call_fails_unbound _ _ _ _
                  (Param "response" PositionalOrKeyword Required)
                  (<["self" := self]> ∅));
        [| |exact Hk|right; right; left| |sig_nodup].
    + by apply (call_fails_unbound _ _ _ _
                  (Param "response" PositionalOrKeyword Required)
                  (<["exercise" := a]> (<["self" := self]> ∅)));
        [| |exact Hk|right; right; left| |sig_nodup].
Qed.

Lemma evaluate_response_arity_witness :
  call_method evaluate_response_sig (VRef 1%positive) [VRef 2%positive] []
  = inl TypeError.
Proof.
  apply evaluate_response_arity.
  - by left.
  - right. right. split; [simpl; lia|]. simpl. by intros Hin%elem_of_nil.
Defined.

(** ** What a successful call has bound *)

Lemma has_param_elem ps k : has_param ps k = true → k ∈ p_name <$> ps.
Proof.
  intros (p & Hin%list_elem_of_In & Heq%String.eqb_eq)%existsb_exists.
  subst k. by apply list_elem_of_fmap_2.
Qed.

Lemma bind_keywords_extra_subseteq sg kw (acc extra acc' extra' : gmap string value) :
  bind_keywords sg kw acc extra = inr (acc', extra') → extra ⊆ extra'.
Proof.
  revert acc extra.
  induction kw as [|[k v] kw IH]; intros acc extra H; simpl in H.
  - by inversion H.
  - destruct (has_param _ k).
    + destruct (acc !! k); [done|by eapply IH].
    + destruct (sig_var_keyword sg); [|done].
      destruct (extra !! k) eqn:Hk; [done|].
      etrans; [|by eapply IH]. by apply insert_subseteq.
Qed.

(** A keyword that is repeated, or that names a parameter bound already,
    makes the binding fail. *)
Lemma bind_keywords_fails_extra sg kw (acc extra : gmap string value) k :
  k ∈ kw.*1 → has_param (sig_params sg) k = false → is_Some (extra !! k) →
  bind_keywords sg kw acc extra = inl TypeError.
Proof.
  revert acc extra. induction kw as [|[k' v] kw IH]; intros acc extra Hin Hp Hk.
  { by apply elem_of_nil in Hin. }
  simpl in *. apply elem_of_cons in Hin as [<-|Hin].
  - rewrite Hp. destruct (sig_var_keyword sg); [|done]. by destruct Hk as [x ->].
  - destruct (has_param _ k') eqn:Hp'.
    + destruct (acc !! k'); [done|]. by apply IH.
    + destruct (sig_var_keyword sg); [|done].
      destruct (extra !! k') eqn:Hk'; [done|]. apply IH; [done..|].
      destruct (decide (k' = k)) as [->|]; [by rewrite lookup_insert_eq|].
      by rewrite lookup_insert_ne.
Qed.

Lemma bind_keywords_NoDup sg kw (acc extra acc' extra' : gmap string value) :
  bind_keywords sg kw acc extra = inr (acc', extra') → NoDup kw.*1.
Proof.
  revert acc extra.
  induction kw as [|[k v] kw IH]; intros acc extra H; [constructor|].
  simpl in H. rewrite fmap_cons. apply NoDup_cons.
  destruct (has_param _ k) eqn:Hp.
  - destruct (acc !! k) eqn:Hk; [done|]. split; [|by eapply IH].
    intros Hin. rewrite (bind_keywords_fails _ _ _ _ k Hin) in H; [done|].
    right. by rewrite lookup_insert_eq.
  - destruct (sig_var_keyword sg); [|done].
    destruct (extra !! k) eqn:Hk; [done|]. split; [|by eapply IH].
    intros Hin. rewrite (bind_keywords_fails_extra _ _ _ _ k Hin Hp) in H;
      [done|]. by rewrite lookup_insert_eq.
Qed.

(** Each keyword is bound to its parameter, or kept in [**kwargs]. *)
Lemma bind_keywords_lookup sg kw (acc extra acc' extra' : gmap string value) k v :
  bind_keywords sg kw acc extra = inr (acc', extra') → (k, v) ∈ kw →
  (has_param (sig_params sg) k = true ∧ acc' !! k = Some v)
  ∨ (has_param (sig_params sg) k = false ∧ extra' !! k = Some v).
Proof.
  revert acc extra.
  induction kw as [|[k' v'] kw IH]; intros acc extra H Hin.
  { by apply elem_of_nil in Hin. }
  simpl in H. apply elem_of_cons in Hin as [[= <- <-]|Hin].
  - destruct (has_param _ k) eqn:Hp.
    + destruct (acc !! k); [done|]. left. split; [done|].
      eapply lookup_weaken; [apply lookup_insert_eq|].
      by eapply bind_keywords_subseteq.
    + destruct (sig_var_keyword sg); [|done].
      destruct (extra !! k); [done|]. right. split; [done|].
      eapply lookup_weaken; [apply lookup_insert_eq|].
      by eapply bind_keywords_extra_subseteq.
  - destruct (has_param _ k').
    + destruct (acc !! k'); [done|by eapply IH].
    + destruct (sig_var_keyword sg); [|done].
      destruct (extra !! k'); [done|by eapply IH].
Qed.

(** [**kwargs] holds keywords of the call only, none of them a parameter's
    name. *)
Lemma bind_keywords_extra_inv sg kw (acc extra acc' extra' : gmap string value) k :
  bind_keywords sg kw acc extra = inr (acc', extra') →
  is_Some (extra' !! k) →
  is_Some (extra !! k) ∨ (k ∈ kw.*1 ∧ has_param (sig_params sg) k = false).
Proof.
  revert acc extra.
  induction kw as [|[k' v'] kw IH]; intros acc extra H Hk; simpl in H.
  { inversion H; subst. by left. }
  destruct (has_param _ k') eqn:Hp.
  - destruct (acc !! k'); [done|].
    destruct (IH _ _ H Hk) as [?|[? ?]]; [by left|right].
    split; [by right|done].
  - destruct (sig_var_keyword sg); [|done].
    destruct (extra !! k') eqn:Hk'; [done|].
    destruct (IH _ _ H Hk) as [Hs|[? ?]].
    + destruct (decide (k' = k)) as [->|Hne].
      * right. split; [by left|done].
      * left. by rewrite lookup_insert_ne in Hs.
    + right. split; [by right|done].
Qed.

(** Only parameters are bound. *)
Lemma bind_positional_names ps args (acc acc' : gmap string value) k :
  bind_positional ps args acc = inr acc' → is_Some (acc' !! k) →
  is_Some (acc !! k) ∨ k ∈ p_name <$> ps.
Proof.
  revert args acc. induction ps as [|q ps IH]; intros [|a args] acc H Hk;
    simpl in H; try discriminate; try (inversion H; subst; by left).
  destruct (p_kind q); [|discriminate].
  destruct (IH _ _ H Hk) as [Hs|Hin]; [|right; by right].
  destruct (decide (p_name q = k)) as [<-|Hne]; [right; by left|].
  left. by rewrite lookup_insert_ne in Hs.
Qed.

Lemma bind_keywords_names sg kw (acc extra acc' extra' : gmap string value) k :
  bind_keywords sg kw acc extra = inr (acc', extra') → is_Some (acc' !! k) →
  is_Some (acc !! k) ∨ k ∈ p_name <$> sig_params sg.
Proof.
  revert acc extra.
  induction kw as [|[k' v'] kw IH]; intros acc extra H Hk; simpl in H.
  { inversion H; subst. by left. }
  destruct (has_param _ k') eqn:Hp.
  - destruct (acc !! k'); [done|].
    destruct (IH _ _ H Hk) as [Hs|?]; [|by right].
    destruct (decide (k' = k)) as [<-|Hne]; [right; by apply has_param_elem|].
    left. by rewrite lookup_insert_ne in Hs.
  - destruct (sig_var_keyword sg); [|done].
    destruct (extra !! k'); [done|by eapply IH].
Qed.

Lemma apply_defaults_names ps (acc bound : gmap string value) k :
  apply_defaults ps acc = inr bound → is_Some (bound !! k) →
  is_Some (acc !! k) ∨ k ∈ p_name <$> ps.
Proof.
  revert acc. induction ps as [|q ps IH]; intros acc H Hk; simpl in H.
  { inversion H; subst. by left. }
  destruct (acc !! p_name q) eqn:Hq.
  { destruct (IH _ H Hk); [by left|right; by right]. }
  destruct (p_default q); [done| |].
  - destruct (IH _ H Hk) as [Hs|?]; [|right; by right].
    destruct (decide (p_name q = k)) as [<-|Hne]; [right; by left|].
    left. by rewrite lookup_insert_ne in Hs.
  - destruct (IH _ H Hk); [by left|right; by right].
Qed.

(** X8. A call of one of the three operations that succeeds accounts for
    every argument: the receiver is bound to [self], the parameters bound
    are exactly those of the signature, no keyword occurs twice, each
    keyword's value is found under its name among the parameters or in
    [**kwargs], and [**kwargs] holds keywords of the call only, none of
    them the name of a parameter. *)
Theorem call_accounts_for_arguments
    (sg : signature) (self : value) (args : list value)
    (kw : list (string * value)) (bound extra : gmap string value) :
  sg ∈ [generate_exercise_sig; evaluate_response_sig; provide_feedback_sig] →
  call_method sg self args kw = inr (bound, extra) →
  dom bound = list_to_set (p_name <$> sig_params sg)
  ∧ bound !! "self" = Some self
  ∧ NoDup kw.*1
  ∧ (∀ k v, (k, v) ∈ kw → bound !! k = Some v ∨ extra !! k = Some v)
  ∧ (∀ k, is_Some (extra !! k) →
          k ∈ kw.*1 ∧ k ∉ p_name <$> sig_params sg).
Proof.
  intros Hsg (acc & acc' & Hpos & Hkw & Hdef)%bind_args_inv.
  assert (acc !! "self" = Some self) as Hself.
  { repeat (apply elem_of_cons in Hsg as [->|Hsg]);
      [..|by apply elem_of_nil in Hsg];
      destruct args as [|a [|b [|c args]]]; simpl in Hpos;
      try discriminate; by injection Hpos as <-. }
  assert (∀ p, p ∈ sig_params sg → ∀ f, p_default p ≠ DefaultFactory f)
    as Hnofac.
  { intros p Hp f.
    repeat (apply elem_of_cons in Hsg as [->|Hsg]);
      [..|by apply elem_of_nil in Hsg];
      simpl in Hp;
      repeat (apply elem_of_cons in Hp as [->|Hp]); try done;
      by apply elem_of_nil in Hp. }
  split; [|split; [|split; [|split]]].
  - apply set_eq. intros k. rewrite elem_of_dom, elem_of_list_to_set. split.
    + intros Hk.
      destruct (apply_defaults_names _ _ _ _ Hdef Hk) as [Hk'|]; [|done].
      destruct (bind_keywords_names _ _ _ _ _ _ _ Hkw Hk') as [Hk''|]; [|done].
      destruct (bind_positional_names _ _ _ _ _ Hpos Hk'') as [[? Hx]|];
        [by rewrite lookup_empty in Hx|done].
    + intros (p & -> & Hp)%list_elem_of_fmap.
      eapply apply_defaults_bound; [exact Hdef|exact Hp|by apply Hnofac].
  - eapply lookup_weaken; [|by eapply apply_defaults_subseteq].
    eapply lookup_weaken; [exact Hself|by eapply bind_keywords_subseteq].
  - by eapply bind_keywords_NoDup.
  - intros k v Hin.
    destruct (bind_keywords_lookup _ _ _ _ _ _ _ _ Hkw Hin) as [[_ Hk]|[_ Hk]];
      [left|by right].
    eapply lookup_weaken; [exact Hk|by eapply apply_defaults_subseteq].
  - intros k Hk.
    destruct (bind_keywords_extra_inv _ _ _ _ _ _ _ Hkw Hk) as [[? Hx]|[Hin Hp]].
    { by rewrite lookup_empty in Hx. }
    split; [done|]. intros (p & -> & Hp')%list_elem_of_fmap.
    by rewrite (has_param_true _ _ Hp') in Hp.
Qed.

Lemma call_accounts_for_arguments_witness :
  (<["response" := VStr "sat"]>
     (<["exercise" := VRef 2%positive]>
        (<["self" := VRef 1%positive]> (∅ : gmap string value))))
    !! "self" = Some (VRef 1%positive).
Proof.
  refine (proj1 (proj2 (call_accounts_for_arguments evaluate_response_sig
            (VRef 1%positive) [VRef 2%positive]
            [("response", VStr "sat"); ("hint", VBool true)]
            _ (<["hint" := VBool true]> ∅) _ _))).
  - right. by left.
  - reflexivity.
Defined.

(** X9. [evaluate_response] and [provide_feedback] take [exercise] and
    [response] by keyword as well as by position: with both by keyword, or
    with [response] alone by keyword, the call binds as the one that
    passes the two by position. *)
Theorem evaluate_response_by_keyword
    (sg : signature) (self e r : value) (kw : list (string * value)) :
  sg = evaluate_response_sig ∨ sg = provide_feedback_sig →
  extra_keywords sg kw = true →
  call_method sg self [] (("exercise", e) :: ("response", r) :: kw)
  = call_method sg self [e; r] kw
  ∧ call_method sg self [e] (("response", r) :: kw)
    = call_method sg self [e; r] kw
  ∧ call_method sg self [e; r] kw
    = inr (<["response" := r]> (<["exercise" := e]> (<["self" := self]> ∅)),
           list_to_map kw).
Proof.
  intros Hsg Hkw.
  assert (sg = evaluate_response_sig) as -> by (by destruct Hsg as [->| ->]).
  unfold call_method, bind_args. simpl bind_positional. cbv beta iota.
  rewrite !bind_keywords_param by by vm_compute.
  rewrite !bind_keywords_open by done. by split; [|split].
Qed.

Lemma evaluate_response_by_keyword_witness :
  call_method provide_feedback_sig (VRef 1%positive) []
    [("exercise", VRef 2%positive); ("response", VStr "ran")]
  = call_method provide_feedback_sig (VRef 1%positive)
      [VRef 2%positive; VStr "ran"] [].
Proof.
  apply (evaluate_response_by_keyword provide_feedback_sig (VRef 1%positive)
           (VRef 2%positive) (VStr "ran") []).
  - by right.
  - reflexivity.
Defined.


(** ** Construction and the store *)

Lemma Exercise_bind_prompt_metadata self p md :
  bind_args (init_signature Exercise) [self; p] [("metadata", md)]
  = inr (<["answer" := VNone]> (<["options" := VNone]>
          (<["metadata" := md]> (<["prompt" := p]> (<["self" := self]> ∅)))),
         ∅).
Proof. reflexivity. Qed.

(** [Exercise(p, metadata=md)] keeps [md] itself. *)
Lemma Exercise_new_explicit_metadata (p md : value) (h : gmap positive obj) :
  ∃ l, (l ∉ dom h)
    ∧ dataclass_new Exercise [p] [("metadata", md)] h
      = Ok l (<[l := OInst Exercise (Exercise_attrs p VNone VNone md)]> h).
Proof.
  destruct (Exercise_new_run [p] [("metadata", md)] h _ _
              (Exercise_bind_prompt_metadata _ _ _))
    as (p' & o & a & Hp & Ho & Ha & Hrun).
  vm_compute in Hp, Ho, Ha. simplify_eq.
  change ((_ : gmap string value) !! "metadata") with (Some md) in Hrun.
  eexists. split; [apply is_fresh|exact Hrun].
Qed.

Lemma not_elem_of_dom_insert (h : gmap positive obj) l l' o :
  l' ∉ dom (<[l := o]> h) → l' ≠ l ∧ l' ∉ dom h.
Proof.
  rewrite dom_insert_L, not_elem_of_union, not_elem_of_singleton. tauto.
Qed.

(** X10. A metadata dict passed to the constructor is kept, not copied:
    two [Exercise] values constructed with the same dict both refer to it,
    nothing but the two instances is added to the store, and an item set
    in the dict afterwards is seen through both. *)
Theorem explicit_metadata_is_shared
    (h h1 h2 : gmap positive obj) (d l1 l2 : loc)
    (items : gmap string value) (p1 p2 : value) :
  dict_items h d = Some items →
  dataclass_new Exercise [p1] [("metadata", VRef d)] h = Ok l1 h1 →
  dataclass_new Exercise [p2] [("metadata", VRef d)] h1 = Ok l2 h2 →
  getattr l1 "metadata" h2 = Ok (VRef d) h2
  ∧ getattr l2 "metadata" h2 = Ok (VRef d) h2
  ∧ dom h2 = {[l2]} ∪ ({[l1]} ∪ dom h)
  ∧ ∀ k v, ∃ h3,
      dict_setitem d k v h2 = Ok () h3
      ∧ dict_items h3 d = Some (<[k := v]> items)
      ∧ getattr l1 "metadata" h3 = Ok (VRef d) h3
      ∧ getattr l2 "metadata" h3 = Ok (VRef d) h3.
Proof.
  intros Hd%dict_items_Some H1 H2.
  destruct (Exercise_new_explicit_metadata p1 (VRef d) h) as (l & Hl & Hrun).
  rewrite Hrun in H1. injection H1 as <- <-. clear Hrun.
  destruct (Exercise_new_explicit_metadata p2 (VRef d)
              (<[l := OInst Exercise (Exercise_attrs p1 VNone VNone (VRef d))]> h))
    as (l' & Hl' & Hrun').
  rewrite Hrun' in H2. injection H2 as <- <-. clear Hrun'.
  apply not_elem_of_dom_insert in Hl' as [Hne Hl'].
  assert (d ∈ dom h) as Hin by (apply elem_of_dom; eauto).
  assert (l ≠ d) as Hld by (by intros ->).
  assert (l' ≠ d) as Hld' by (by intros ->).
  destruct (Exercise_attrs_lookup p1 VNone VNone (VRef d)) as (_ & _ & _ & Hm1).
  destruct (Exercise_attrs_lookup p2 VNone VNone (VRef d)) as (_ & _ & _ & Hm2).
  split; [|split; [|split]].
  - eapply getattr_inst; [|exact Hm1].
    by rewrite lookup_insert_ne, lookup_insert_eq.
  - eapply getattr_inst; [apply lookup_insert_eq|exact Hm2].
  - by rewrite !dom_insert_L.
  - intros k v. eexists. split; [|split; [|split]].
    + apply dict_setitem_dict. by rewrite !lookup_insert_ne.
    + apply dict_items_Some. by rewrite lookup_insert_eq.
    + eapply getattr_inst; [|exact Hm1].
      by rewrite 2!lookup_insert_ne, lookup_insert_eq by done.
    + eapply getattr_inst; [|exact Hm2].
      by rewrite lookup_insert_ne, lookup_insert_eq by done.
Qed.

Lemma explicit_metadata_is_shared_witness :
  ∃ h3,
    dict_setitem 1%positive "topic" (VStr "food")
      (<[3%positive := OInst Exercise
           (Exercise_attrs (VStr "b") VNone VNone (VRef 1%positive))]>
         (<[2%positive := OInst Exercise
              (Exercise_attrs (VStr "a") VNone VNone (VRef 1%positive))]>
            (<[1%positive := ODict ∅]> ∅))) = Ok () h3
    ∧ dict_items h3 1%positive = Some (<["topic" := VStr "food"]> ∅)
    ∧ getattr 2%positive "metadata" h3 = Ok (VRef 1%positive) h3
    ∧ getattr 3%positive "metadata" h3 = Ok (VRef 1%positive) h3.
Proof.
  pose (h := <[1%positive := ODict ∅]> (∅ : gmap positive obj)).
  pose (h1 := <[2%positive := OInst Exercise
                  (Exercise_attrs (VStr "a") VNone VNone (VRef 1%positive))]> h).
  pose (h2 := <[3%positive := OInst Exercise
                  (Exercise_attrs (VStr "b") VNone VNone (VRef 1%positive))]> h1).
  destruct (explicit_metadata_is_shared h h1 h2 1%positive 2%positive
              3%positive ∅ (VStr "a") (VStr "b")) as (_ & _ & _ & Hset).
  - reflexivity.
  - vm_compute. reflexivity.
  - vm_compute. reflexivity.
  - exact (Hset "topic" (VStr "food")).
Defined.

(** X11. Constructing an [Exercise] or an [Evaluation] changes no object
    that exists: whatever the arguments, a successful call leaves every
    object of the store as it was and adds the instance and, for an
    [Exercise] built without metadata, its new empty dict, and nothing
    else. *)
Theorem construction_frame
    (dc : dataclass) (args : list value) (kw : list (string * value))
    (h h' : gmap positive obj) (l : loc) :
  dc = Exercise ∨ dc = Evaluation →
  dataclass_new dc args kw h = Ok l h' →
  (l ∉ dom h)
  ∧ instance_of h' l dc
  ∧ (∀ x, x ∈ dom h → h' !! x = h !! x)
  ∧ (∀ x, x ∈ dom h' → x ∉ dom h →
          x = l ∨ (dc = Exercise ∧ h' !! x = Some (ODict ∅)
                   ∧ getattr l "metadata" h' = Ok (VRef x) h')).
Proof.
  intros [-> | ->] H.
  - apply Exercise_new_inv in H
      as (bound & extra & p & o & a & Hl & _ & _ & _ & _ & H).
    destruct H as [(md & _ & ->)|(m & _ & Hm & Hne & ->)].
    + split; [done|]. split; [eexists; apply lookup_insert_eq|]. split.
      * intros x Hx. rewrite lookup_insert_ne; [done|]. by intros ->.
      * intros x Hx Hx'. left.
        apply elem_of_dom in Hx. apply not_elem_of_dom in Hx'.
        destruct (decide (x = l)) as [|Hxl]; [done|].
        rewrite lookup_insert_ne in Hx by done. rewrite Hx' in Hx.
        by destruct Hx.
    + destruct (Exercise_attrs_lookup p o a (VRef m)) as (_ & _ & _ & Hmd).
      split; [done|]. split; [eexists; apply lookup_insert_eq|]. split.
      * intros x Hx. rewrite !lookup_insert_ne; [done|by intros ->..].
      * intros x Hx Hx'.
        apply elem_of_dom in Hx. apply not_elem_of_dom in Hx'.
        destruct (decide (x = l)) as [|Hxl]; [by left|right].
        rewrite lookup_insert_ne in Hx by done.
        destruct (decide (x = m)) as [->|Hxm].
        -- split; [done|]. split.
           ++ by rewrite lookup_insert_ne, lookup_insert_eq.
           ++ eapply getattr_inst; [apply lookup_insert_eq|exact Hmd].
        -- rewrite lookup_insert_ne in Hx by done. rewrite Hx' in Hx.
           by destruct Hx.
  - apply Evaluation_new_inv in H
      as (bound & extra & c & s & f & Hl & _ & _ & _ & _ & ->).
    split; [done|]. split; [eexists; apply lookup_insert_eq|]. split.
    + intros x Hx. rewrite lookup_insert_ne; [done|]. by intros ->.
    + intros x Hx Hx'. left.
      apply elem_of_dom in Hx. apply not_elem_of_dom in Hx'.
      destruct (decide (x = l)) as [|Hxl]; [done|].
      rewrite lookup_insert_ne in Hx by done. rewrite Hx' in Hx.
      by destruct Hx.
Qed.

Lemma construction_frame_witness :
  (<[2%positive := OInst Evaluation
       (Evaluation_attrs (VBool true) (VInt 1) VNone)]>
     (<[1%positive := ODict (<["k" := VInt 1]> ∅)]>
        (∅ : gmap positive obj))) !! 1%positive
  = (<[1%positive := ODict (<["k" := VInt 1]> ∅)]>
       (∅ : gmap positive obj)) !! 1%positive.
Proof.
  refine (proj1 (proj2 (proj2 (construction_frame Evaluation
            [VBool true; VInt 1] []
            (<[1%positive := ODict (<["k" := VInt 1]> ∅)]> ∅) _ 2%positive
            _ _))) 1%positive _).
  - by right.
  - vm_compute. reflexivity.
  - apply elem_of_dom. eexists. reflexivity.
Defined.

(** ** Equality of the two records *)

Ltac lookup_heap :=
  repeat first [rewrite lookup_insert_eq|rewrite lookup_insert_ne by done].


Lemma py_eq_instances n (h : gmap positive obj) la lb dc fa fb :
  la ≠ lb → dc_eq dc = true →
  h !! la = Some (OInst dc fa) → h !! lb = Some (OInst dc fb) →
  py_eq (S n) h (VRef la) (VRef lb)
  = fields_eq (py_eq n h) (dc_fields dc) fa fb.
Proof.
  intros Hne Heq Ha Hb. simpl. rewrite decide_False by done.
  by rewrite Ha, Hb, Heq, bool_decide_eq_true_2.
Qed.



(** X12. Equality of [Exercise] values goes by content, the metadata dict
    included: two values constructed one after the other from the same
    prompt alone compare equal although each has a dict of its own, and
    they compare unequal once an item is set in the metadata of the
    first. *)
Theorem Exercise_eq_follows_metadata
    (p : string) (h h1 h2 : gmap positive obj) (l1 l2 : loc) :
  dataclass_new Exercise [VStr p] [] h = Ok l1 h1 →
  dataclass_new Exercise [VStr p] [] h1 = Ok l2 h2 →
  py_eq 2 h2 (VRef l1) (VRef l2) = Some true
  ∧ ∃ m1, getattr l1 "metadata" h2 = Ok (VRef m1) h2
          ∧ ∀ k v, ∃ h3, dict_setitem m1 k v h2 = Ok () h3
                         ∧ py_eq 2 h3 (VRef l1) (VRef l2) = Some false.
Proof.
  intros H1 H2.
  destruct (Exercise_new_prompt (VStr p) h) as (l & m & Hl & Hm & Hne & Hrun).
  rewrite Hrun in H1. injection H1 as <- <-. clear Hrun.
  set (a1 := Exercise_attrs (VStr p) VNone VNone (VRef m)) in *.
  destruct (Exercise_new_prompt (VStr p) (<[l := OInst Exercise a1]>
                                            (<[m := ODict ∅]> h)))
    as (l' & m' & Hl' & Hm' & Hne' & Hrun).
  rewrite Hrun in H2. injection H2 as <- <-. clear Hrun.
  set (a2 := Exercise_attrs (VStr p) VNone VNone (VRef m')) in *.
  apply not_elem_of_dom_insert in Hl' as [Hl'l Hl'].
  apply not_elem_of_dom_insert in Hl' as [Hl'm _].
  apply not_elem_of_dom_insert in Hm' as [Hm'l Hm'].
  apply not_elem_of_dom_insert in Hm' as [Hm'm _].
  destruct (Exercise_attrs_lookup (VStr p) VNone VNone (VRef m))
    as (Hp1 & Ho1 & Ha1 & Hd1).
  destruct (Exercise_attrs_lookup (VStr p) VNone VNone (VRef m'))
    as (Hp2 & Ho2 & Ha2 & Hd2).
  fold a1 in Hp1, Ho1, Ha1, Hd1. fold a2 in Hp2, Ho2, Ha2, Hd2.
  split; [|exists m; split].
  - erewrite (py_eq_instances _ _ l l' Exercise a1 a2);
      [|done|done|by lookup_heap..].
    unfold fields_eq. simpl all_opt.
    rewrite Hp1, Hp2, Ho1, Ho2, Ha1, Ha2, Hd1, Hd2.
    unfold scalar_eq. rewrite String.eqb_refl, decide_False by done.
    by lookup_heap.
  - eapply getattr_inst; [by lookup_heap|exact Hd1].
  - intros k v. eexists. split.
    + apply dict_setitem_dict. by lookup_heap.
    + erewrite (py_eq_instances _ _ l l' Exercise a1 a2);
        [|done|done|by lookup_heap..].
      unfold fields_eq. simpl all_opt.
      rewrite Hp1, Hp2, Ho1, Ho2, Ha1, Ha2, Hd1, Hd2.
      unfold scalar_eq. rewrite String.eqb_refl, decide_False by done.
      lookup_heap. rewrite bool_decide_eq_false_2; [done|].
      by rewrite map_size_insert_None, map_size_empty.
Qed.

Lemma Exercise_eq_follows_metadata_witness :
  py_eq 2
    (<[3%positive := OInst Exercise
         (Exercise_attrs (VStr "a") VNone VNone (VRef 4%positive))]>
       (<[4%positive := ODict ∅]>
          (<[1%positive := OInst Exercise
               (Exercise_attrs (VStr "a") VNone VNone (VRef 2%positive))]>
             (<[2%positive := ODict ∅]> ∅))))
    (VRef 1%positive) (VRef 3%positive)
  = Some true.
Proof.
  refine (proj1 (Exercise_eq_follows_metadata "a" ∅
            (<[1%positive := OInst Exercise
                 (Exercise_attrs (VStr "a") VNone VNone (VRef 2%positive))]>
               (<[2%positive := ODict ∅]> ∅)) _ 1%positive 3%positive _ _)).
  - vm_compute. reflexivity.
  - vm_compute. reflexivity.
Defined.

(** X13. An [Exercise] and an [Evaluation] never compare equal, in either
    order, whatever their fields hold: the generated [__eq__] answers only
    for two instances of its own class. *)
Theorem Exercise_never_equals_Evaluation
    (fuel : nat) (h : gmap positive obj) (la lb : loc) :
  instance_of h la Exercise → instance_of h lb Evaluation →
  py_eq (S fuel) h (VRef la) (VRef lb) = Some false
  ∧ py_eq (S fuel) h (VRef lb) (VRef la) = Some false.
Proof.
  intros [fa Ha] [fb Hb].
  assert (la ≠ lb) as Hne by (intros ->; rewrite Ha in Hb; discriminate).
  split; simpl.
  - rewrite decide_False by done. rewrite Ha, Hb.
    by rewrite bool_decide_eq_false_2.
  - rewrite decide_False by done. rewrite Ha, Hb.
    by rewrite bool_decide_eq_false_2.
Qed.

Lemma Exercise_never_equals_Evaluation_witness :
  py_eq 1
    (<[2%positive := OInst Evaluation
         (Evaluation_attrs (VBool true) (VInt 1) VNone)]>
       (<[1%positive := OInst Exercise
            (Exercise_attrs (VStr "a") VNone VNone VNone)]> ∅))
    (VRef 1%positive) (VRef 2%positive)
  = Some false.
Proof.
  refine (proj1 (Exercise_never_equals_Evaluation 0 _ 1%positive 2%positive
                   _ _)).
  - eexists. reflexivity.
  - eexists. reflexivity.
Defined.

(** X14. Two [Evaluation] values, each with its three fields, whose
    verdicts differ compare unequal, whatever their scores and feedback:
    [is_correct] is the first field compared and the comparison stops
    there. *)
Theorem Evaluation_neq_by_verdict
    (fuel : nat) (h : gmap positive obj) (la lb : loc) (b1 b2 : bool) :
  instance_of h la Evaluation → instance_of h lb Evaluation →
  (∀ name, name ∈ field_names Evaluation →
     ∃ x y, getattr la name h = Ok x h ∧ getattr lb name h = Ok y h) →
  getattr la "is_correct" h = Ok (VBool b1) h →
  getattr lb "is_correct" h = Ok (VBool b2) h →
  b1 ≠ b2 →
  py_eq (S fuel) h (VRef la) (VRef lb) = Some false.
Proof.
  intros [fa Ha] [fb Hb] _ Hga Hgb Hne.
  unfold getattr in Hga, Hgb. rewrite Ha in Hga. rewrite Hb in Hgb.
  destruct (fa !! "is_correct") as [x|] eqn:Hx; [|done].
  destruct (fb !! "is_correct") as [y|] eqn:Hy; [|done].
  simplify_eq.
  assert (la ≠ lb) as Hl.
  { intros ->. rewrite Ha in Hb. simplify_eq. }
  rewrite (py_eq_instances _ _ la lb Evaluation fa fb) by done.
  unfold fields_eq. simpl all_opt. rewrite Hx, Hy.
  destruct fuel; simpl; by destruct b1, b2.
Qed.

Lemma Evaluation_neq_by_verdict_witness :
  py_eq 1
    (<[2%positive := OInst Evaluation
         (Evaluation_attrs (VBool false) (VInt 1) VNone)]>
       (<[1%positive := OInst Evaluation
            (Evaluation_attrs (VBool true) (VInt 1) VNone)]> ∅))
    (VRef 1%positive) (VRef 2%positive)
  = Some false.
Proof.
  apply (Evaluation_neq_by_verdict 0 _ 1%positive 2%positive true false).
  - eexists. reflexivity.
  - eexists. reflexivity.
  - intros name Hin. unfold field_names in Hin. simpl in Hin.
    repeat (apply elem_of_cons in Hin as [->|Hin]);
      [| | |by apply elem_of_nil in Hin];
      eexists _, _; split; reflexivity.
  - reflexivity.
  - reflexivity.
  - discriminate.
Defined.





(** ** Subclasses of the interface *)

(** X17. What a direct subclass of [SLMInterface] has still to implement
    is read off its body: its [__abstractmethods__] are the members it
    declares abstract and those of the three operations that its body does
    not define. *)
Theorem direct_subclass_abstractmethods
    (name : string) (body : gmap string member) :
  abstractmethods (Class name SLMInterface_abc body)
  = dom (filter (λ kv, is_abstract kv.2 = true) body)
    ∪ filter (λ op, ¬ is_Some (body !! op)) (list_to_set operations).
Proof.
  apply set_eq. intros n.
  rewrite elem_of_abstractmethods, elem_of_union, elem_of_dom, elem_of_filter.
  rewrite class_getattr_Class, SLMInterface_abstractmethods. split.
  - intros [(m & Hm & Hab)|[Hn Hab]].
    + left. exists m. by apply map_lookup_filter_Some.
    + destruct (body !! n) as [m|] eqn:Hm.
      * left. exists m. by apply map_lookup_filter_Some.
      * right. split; [by intros [? ?]|done].
  - intros [[m [Hm Hab]%map_lookup_filter_Some]|[Hnone Hn]].
    + left. eauto.
    + right. split; [done|].
      destruct (body !! n) as [m|] eqn:Hm; [destruct Hnone; eauto|].
      apply elem_of_list_to_set in Hn. unfold operations in Hn.
      repeat (apply elem_of_cons in Hn as [->|Hn]);
        [| | |by apply elem_of_nil in Hn]; reflexivity.
Qed.



(** ** Fields without a default, and fields of any value *)

(** X19. The fields without a default must be given: a call of [Exercise]
    that gives no [prompt], and a call of [Evaluation] that gives no
    [is_correct] or no [score], by position or by keyword, raises
    [TypeError], whatever else it passes. *)
Theorem constructor_requires_fields
    (args : list value) (kw : list (string * value))
    (h : gmap positive obj) :
  (length args = 0%nat ∧ "prompt" ∉ kw.*1 →
   ∃ h', dataclass_new Exercise args kw h = Raise TypeError h')
  ∧ (length args = 0%nat ∧ "is_correct" ∉ kw.*1 →
     ∃ h', dataclass_new Evaluation args kw h = Raise TypeError h')
  ∧ ((length args ≤ 1)%nat ∧ "score" ∉ kw.*1 →
     ∃ h', dataclass_new Evaluation args kw h = Raise TypeError h').
Proof.
  split; [|split]; intros [Hlen Hk]; eexists; apply dataclass_new_unbound.
  - destruct args; [|done].
    by apply (call_fails_unbound (init_signature Exercise) _ _ _
                (Param "prompt" PositionalOrKeyword Required)
                (<["self" := VRef (fresh (dom h))]> ∅));
      [| |exact Hk|right; left| |sig_nodup].
  - destruct args; [|done].
    by apply (call_fails_unbound (init_signature Evaluation) _ _ _
                (Param "is_correct" PositionalOrKeyword Required)
                (<["self" := VRef (fresh (dom h))]> ∅));
      [| |exact Hk|right; left| |sig_nodup].
  - destruct args as [|a [|b args]]; [| |simpl in Hlen; lia].
    + by apply (call_fails_unbound (init_signature Evaluation) _ _ _
                  (Param "score" PositionalOrKeyword Required)
                  (<["self" := VRef (fresh (dom h))]> ∅));
        [| |exact Hk|right; right; left| |sig_nodup].
    + by apply (call_fails_unbound (init_signature Evaluation) _ _ _
                  (Param "score" PositionalOrKeyword Required)
                  (<["is_correct" := a]>
                     (<["self" := VRef (fresh (dom h))]> ∅)));
        [| |exact Hk|right; right; left| |sig_nodup].
Qed.

Lemma constructor_requires_fields_witness :
  ∃ h', dataclass_new Evaluation [VBool true] [("feedback", VStr "ok")] ∅
        = Raise TypeError h'.
Proof.
  refine (proj2 (proj2 (constructor_requires_fields [VBool true]
            [("feedback", VStr "ok")] ∅)) _).
  split; [simpl; lia|]. simpl. intros Hin.
  apply elem_of_cons in Hin as [Hin|Hin]; [discriminate|].
  by apply elem_of_nil in Hin.
Defined.

Lemma Exercise_bind_four self p o a md :
  bind_args (init_signature Exercise) [self; p; o; a; md] []
  = inr (<["metadata" := md]> (<["answer" := a]> (<["options" := o]>
          (<["prompt" := p]> (<["self" := self]> ∅)))), ∅).
Proof. reflexivity. Qed.

(** X20. The annotations of the fields are not enforced: [Exercise] takes
    values of any shape for its four fields, a prompt that is no string
    included, stores each one unchanged and allocates nothing but the
    instance. *)
Theorem Exercise_stores_arguments_unchecked
    (p o a md : value) (h : gmap positive obj) :
  ∃ l,
    (l ∉ dom h)
    ∧ dataclass_new Exercise [p; o; a; md] [] h
      = Ok l (<[l := OInst Exercise (Exercise_attrs p o a md)]> h)
    ∧ getattr l "prompt"
        (<[l := OInst Exercise (Exercise_attrs p o a md)]> h)
      = Ok p (<[l := OInst Exercise (Exercise_attrs p o a md)]> h).
Proof.
  destruct (Exercise_new_run [p; o; a; md] [] h _ _
              (Exercise_bind_four _ _ _ _ _))
    as (p' & o' & a' & Hp & Ho & Ha & Hrun).
  vm_compute in Hp, Ho, Ha. simplify_eq.
  change ((_ : gmap string value) !! "metadata") with (Some md) in Hrun.
  destruct (Exercise_attrs_lookup p' o' a' md) as (Hp & _).
  eexists. split; [apply is_fresh|]. split; [exact Hrun|].
  eapply getattr_inst; [apply lookup_insert_eq|exact Hp].
Qed.
